(** * litJSX: JSX-like tagged template literals

    A shallow embedding of [src/litJSX.js] and the properties of its
    two-phase pipeline: the transformation of a parsed DOM tree into the
    positional array representation, and the rendering of that
    representation against an array of substitutions.

    Conventions of the embedding.
    - A JavaScript string is a [string]; each character is read as one
      UTF-16 code unit below 256 (the Latin-1 range).
    - A JavaScript number is an integer ([Z], or [N] for the indices that
      the marker codec produces); fractions, NaN and infinities are outside
      the model.
    - A [throw] is the [Throw] completion; normal return is [Return].
    - A class map is a finite map from names to components, as its
      contract has it; entries that are not functions are outside the
      model.  The global object is a finite map from names to values.
    - The values are those of the type [jsval]: symbols and objects without
      a prototype are outside the model, and a number stands for a
      JavaScript number only while it is a safe integer (below 2^53 in
      absolute value).
    - The XML parser is an external library: it is a parameter, and the DOM
      it returns is the input of the transformer.
    - A promise is a value carrying the logical time at which it settles,
      measured from the moment the code that produced it ran, together with
      how it settles.  Microtask ticks take no time. *)

From Stdlib Require Import ZArith NArith Ascii String List Bool Lia.
From Stdlib Require Import DecimalString DecimalPos.
From stdpp Require Import base gmap strings list.

Local Open Scope stdpp_scope.
Set Warnings "-register-all".

(* ================================================================== *)
(** * JavaScript values *)
(* ================================================================== *)

Inductive settlement : Type := Fulfilled | Rejected.

Inductive jsval : Type :=
| VUndefined
| VNull
| VBool (b : bool)
| VNum (n : Z)
| VStr (s : string)
| VArr (items : list jsval)
| VObj (fields : list (string * jsval))
| VTypeError
| VPromise (delay : nat) (how : settlement) (payload : jsval).

(** A completion record: the code either returns or throws a value. *)
Inductive completion (A : Type) : Type :=
| Return (a : A)
| Throw (e : jsval).
Arguments Return {A} a.
Arguments Throw {A} e.

Definition bind {A B} (c : completion A) (k : A -> completion B) : completion B :=
  match c with
  | Return a => k a
  | Throw e => Throw e
  end.

Notation "'let!' x ':=' c 'in' k" := (bind c (fun x => k))
  (at level 10, x name, c at level 100, k at level 200).

(** [array.map(f)] for a callback that may throw: the first exception
    aborts the iteration. *)
Fixpoint mapM {A B} (f : A -> completion B) (l : list A) : completion (list B) :=
  match l with
  | [] => Return []
  | a :: l' => let! b := f a in let! bs := mapM f l' in Return (b :: bs)
  end.

(* ------------------------------------------------------------------ *)
(** ** Plain objects with insertion-ordered string keys *)

Module Obj.
Section Operations.
Context {A : Type}.

(** [o[name]] *)
Fixpoint get (o : list (string * A)) (name : string) : option A :=
  match o with
  | [] => None
  | (k, v) :: o' => if String.eqb k name then Some v else get o' name
  end.

(** [o[name] = v]: an existing key keeps its position. *)
Fixpoint set (o : list (string * A)) (name : string) (v : A) : list (string * A) :=
  match o with
  | [] => [(name, v)]
  | (k, w) :: o' =>
      if String.eqb k name then (k, v) :: o' else (k, w) :: set o' name v
  end.

(** [Object.keys(o)] *)
Definition keys (o : list (string * A)) : list string := map fst o.

(** [Object.assign(target, source)] *)
Definition assign (target source : list (string * A)) : list (string * A) :=
  fold_left (fun t kv => set t (fst kv) (snd kv)) source target.
End Operations.
End Obj.

(* ------------------------------------------------------------------ *)
(** ** Strings *)

Module Str.
Definition quote : string := String (ascii_of_nat 34) "".

Fixpoint concat (l : list string) : string :=
  match l with
  | [] => ""
  | s :: l' => s +:+ concat l'
  end.

Fixpoint rev_onto (s acc : string) : string :=
  match s with
  | EmptyString => acc
  | String c s' => rev_onto s' (String c acc)
  end.

Definition rev (s : string) : string := rev_onto s "".

(** The code units below 256 that [\s] and [trim] treat as white space:
    TAB, LF, VT, FF, CR, SPACE and NBSP. *)
Definition is_space (c : ascii) : bool :=
  let n := nat_of_ascii c in
  (Nat.leb 9 n && Nat.leb n 13) || Nat.eqb n 32 || Nat.eqb n 160.

Fixpoint trimStart (s : string) : string :=
  match s with
  | EmptyString => ""
  | String c s' => if is_space c then trimStart s' else s
  end.

Definition trimEnd (s : string) : string := rev (trimStart (rev s)).

(** [s.trim()] *)
Definition trim (s : string) : string := trimEnd (trimStart s).

(** [/^\s/.test(s)] *)
Definition startsWithSpace (s : string) : bool :=
  match s with
  | EmptyString => false
  | String c _ => is_space c
  end.

(** [/\s$/.test(s)] *)
Definition endsWithSpace (s : string) : bool := startsWithSpace (rev s).

(** [\d] *)
Definition is_digit (c : ascii) : bool :=
  let n := nat_of_ascii c in Nat.leb 48 n && Nat.leb n 57.

Definition startsWithDigit (s : string) : bool :=
  match s with
  | EmptyString => false
  | String c _ => is_digit c
  end.

Fixpoint all_digits (s : string) : bool :=
  match s with
  | EmptyString => true
  | String c s' => is_digit c && all_digits s'
  end.

(** [String(n)] for an integer. *)
Definition ofZ (n : Z) : string := NilZero.string_of_int (Z.to_int n).

Definition ofNat (n : nat) : string := ofZ (Z.of_nat n).

(** [parseInt(s)] on the strings the marker pattern captures: the value
    of the leading run of decimal digits. *)
Fixpoint parseDigits (s : string) (acc : N) : N :=
  match s with
  | EmptyString => acc
  | String c s' =>
    if is_digit c
    then parseDigits s' (10 * acc + N.of_nat (nat_of_ascii c - 48))%N
    else acc
  end.

Definition parseInt (s : string) : N := parseDigits s 0%N.

(** Whether [c.toUpperCase()] differs from [c]: the lower-case letters
    of the Latin-1 range (a-z, the micro sign, sharp s, and the accented
    letters other than the division sign). *)
Definition changedByToUpperCase (c : ascii) : bool :=
  let n := nat_of_ascii c in
  (Nat.leb 97 n && Nat.leb n 122)
  || Nat.eqb n 181
  || (Nat.leb 223 n && Nat.leb n 255 && negb (Nat.eqb n 247)).

(** An upper-case letter of the Latin-1 range (A-Z and the accented
    capitals other than the multiplication sign). *)
Definition is_upper (c : ascii) : bool :=
  let n := nat_of_ascii c in
  (Nat.leb 65 n && Nat.leb n 90)
  || (Nat.leb 192 n && Nat.leb n 222 && negb (Nat.eqb n 215)).
End Str.

(* ------------------------------------------------------------------ *)
(** ** Conversions and tests on values *)

(** [ToString(v)], as a template literal or string concatenation applies
    it.  The message of an error object is not modelled. *)
Fixpoint toString (v : jsval) : string :=
  match v with
  | VUndefined => "undefined"
  | VNull => "null"
  | VBool true => "true"
  | VBool false => "false"
  | VNum n => Str.ofZ n
  | VStr s => s
  | VArr items =>
      (fix joinComma (l : list jsval) : string :=
         match l with
         | [] => ""
         | [x] => match x with
                  | VUndefined | VNull => ""
                  | _ => toString x
                  end
         | x :: l' =>
             match x with
             | VUndefined | VNull => ""
             | _ => toString x
             end +:+ "," +:+ joinComma l'
         end) items
  | VObj _ => "[object Object]"
  | VTypeError => "TypeError"
  | VPromise _ _ _ => "[object Promise]"
  end.

(** The string an element contributes to [Array.prototype.join]. *)
Definition joinItem (v : jsval) : string :=
  match v with
  | VUndefined | VNull => ""
  | _ => toString v
  end.

(** [items.join('')] *)
Definition joinEmpty (items : list jsval) : string :=
  Str.concat (map joinItem items).

(** [v instanceof Promise] *)
Definition isPromise (v : jsval) : bool :=
  match v with
  | VPromise _ _ _ => true
  | _ => false
  end.

(** [substitutions[i]] *)
Definition index (substitutions : list jsval) (i : N) : jsval :=
  match substitutions !! N.to_nat i with
  | Some v => v
  | None => VUndefined
  end.

(* ------------------------------------------------------------------ *)
(** ** Promises *)

(** When a value is awaited: a promise settles after its delay, any other
    value is available at once. *)
Definition settleTime (v : jsval) : nat :=
  match v with
  | VPromise t _ _ => t
  | _ => 0
  end.

(** What awaiting a value yields. *)
Definition settledValue (v : jsval) : jsval :=
  match v with
  | VPromise _ _ w => w
  | _ => v
  end.

(** [p.then(f)].  The callback runs when [p] fulfils; a promise it returns
    is adopted, so its delay counts from that moment; an exception it
    throws rejects the result.  A rejected [p] skips the callback.  The
    source calls [then] only on values that are instances of [Promise]. *)
Definition then_ (p : jsval) (f : jsval -> completion jsval) : jsval :=
  match p with
  | VPromise t Fulfilled v =>
      match f v with
      | Return (VPromise t' how w) => VPromise (t + t') how w
      | Return w => VPromise t Fulfilled w
      | Throw e => VPromise t Rejected e
      end
  | VPromise t Rejected e => VPromise t Rejected e
  | _ => VTypeError
  end.

(** The rejection that settles first among [l].  When several rejections
    settle at the same logical time, the order of their reaction jobs
    decides, which logical time does not record: the leftmost one stands in
    for it here, and no property below depends on that choice. *)
Fixpoint firstRejection (l : list jsval) : option (nat * jsval) :=
  match l with
  | [] => None
  | v :: l' =>
      let later := firstRejection l' in
      match v with
      | VPromise t Rejected e =>
          match later with
          | Some (t', _) => if Nat.ltb t' t then later else Some (t, e)
          | None => Some (t, e)
          end
      | _ => later
      end
  end.

(** [Promise.all(l)]: rejects with the first rejection; otherwise fulfils,
    once every element has settled, with the array of the settled values
    in the order of [l]. *)
Definition promiseAll (l : list jsval) : jsval :=
  match firstRejection l with
  | Some (t, e) => VPromise t Rejected e
  | None => VPromise (max_list (map settleTime l)) Fulfilled (VArr (map settledValue l))
  end.

(* ================================================================== *)
(** * The marker codec *)
(* ================================================================== *)

(** The marker that [parse] puts after the literal segment [index]. *)
Definition marker (index : nat) : string := "[[[" +:+ Str.ofNat index +:+ "]]]".

Definition collapseWhitespace (s : string) : string :=
  let hasLeadingSpace := Str.startsWithSpace s in
  let hasTrailingSpace := Str.endsWithSpace s in
  let trimmed := Str.trim s in
  if Nat.eqb (String.length trimmed) 0 then " "
  else
    let newLeadingSpace := if hasLeadingSpace then " " else "" in
    let newTrailingSpace := if hasTrailingSpace then " " else "" in
    newLeadingSpace +:+ trimmed +:+ newTrailingSpace.

(** The longest run of digits at the start of [s], and what follows. *)
Fixpoint takeDigits (s : string) : string * string :=
  match s with
  | EmptyString => ("", "")
  | String c s' =>
      if Str.is_digit c
      then let (ds, rest) := takeDigits s' in (String c ds, rest)
      else ("", s)
  end.

(** The pattern [\[\[\[(\d+)\]\]\]] matched at the start of [s]: the
    captured digits and the text after the match.  The greedy run of digits
    never needs to back off, since a closing bracket is not a digit. *)
Definition matchMarker (s : string) : option (string * string) :=
  match s with
  | String "[" (String "[" (String "[" s1)) =>
      match takeDigits s1 with
      | (String d ds, String "]" (String "]" (String "]" rest))) =>
          Some (String d ds, rest)
      | _ => None
      end
  | _ => None
  end.

(** [s.split(markerRegex)] scanning from the left.  [skip] counts the
    characters of the current match still to be passed over; [lit] holds,
    in reverse, the literal text read since the last match.  The result
    alternates literal text and captured digits. *)
Fixpoint splitFrom (s : string) (skip : nat) (lit : string) : list string :=
  match s with
  | EmptyString => [Str.rev lit]
  | String c s' =>
      match skip with
      | S k => splitFrom s' k lit
      | O =>
          match matchMarker s with
          | Some (ds, _) =>
              Str.rev lit :: ds :: splitFrom s' (5 + String.length ds) ""
          | None => splitFrom s' 0 (String c lit)
          end
      end
  end.

Definition splitMarkers (s : string) : list string := splitFrom s 0 "".

(** An item of a decoded text: a literal or a substitution index. *)
Inductive part : Type :=
| PStr (s : string)
| PNum (n : N).

(** What [transformText] returns: a string, a number, or an array. *)
Inductive decoded : Type :=
| JustString (s : string)
| JustIndex (n : N)
| Parts (items : list part).

(** [typeof item !== 'string' || item.length > 0] *)
Definition nonEmptyItem (item : part) : bool :=
  match item with
  | PStr s => Nat.ltb 0 (String.length s)
  | PNum _ => true
  end.

Definition transformText (text : string) : decoded :=
  let trimmed := collapseWhitespace text in
  let parts := splitMarkers trimmed in
  if Nat.eqb (length parts) 1 then JustString trimmed
  else
    let transformed :=
      imap (fun index part =>
              if Nat.eqb (index mod 2) 0 then PStr part
              else PNum (Str.parseInt part)) parts in
    let stripped := List.filter nonEmptyItem transformed in
    match stripped with
    | [PNum n] => JustIndex n
    | _ => Parts stripped
    end.


(* ================================================================== *)
(** * The positional tree *)
(* ================================================================== *)

(** The properties object handed to a component. *)
Definition props : Type := list (string * jsval).

(** A component: a function of a properties object.  It may return a
    promise, and it may throw. *)
Definition component : Type := props -> completion jsval.

(** The first element of a node triple: a tag name, a function, undefined,
    or any other value that the class map lookup came upon. *)
Inductive name : Type :=
| NTag (tag : string)
| NComponent (c : component)
| NUndefined
| NValue (v : jsval).

(** The array representation that [parse] returns.  [DNode] is the triple
    [[nameData, attributesData, childrenData]]; [DParts] is the array that
    a text node with several parts decodes to.  The attributes object of a
    triple has no property named [__proto__]: [transformAttributes] creates
    none. *)
Inductive tree : Type :=
| DStr (s : string)
| DNum (n : N)
| DNode (nameData : name) (attributesData : list (string * decoded))
        (childrenData : list tree)
| DParts (items : list part).

Definition ofPart (p : part) : tree :=
  match p with
  | PStr s => DStr s
  | PNum n => DNum n
  end.

Definition ofDecoded (d : decoded) : tree :=
  match d with
  | JustString s => DStr s
  | JustIndex n => DNum n
  | Parts items => DParts items
  end.

(** The elements that [result.concat(transformed)] appends: those of an
    array, or the single string or number.  A text node never transforms
    to a triple. *)
Definition concatArgument (transformed : tree) : list tree :=
  match transformed with
  | DParts items => map ofPart items
  | _ => [transformed]
  end.

(** [!!data] *)
Definition truthy (d : tree) : bool :=
  match d with
  | DStr s => Nat.ltb 0 (String.length s)
  | DNum n => negb (N.eqb n 0)
  | DNode _ _ _ | DParts _ => true
  end.

(* ================================================================== *)
(** * The DOM that the XML parser returns *)
(* ================================================================== *)

Inductive node : Type :=
| Element (nodeName localName : string) (attributes : list (string * string))
          (childNodes : list node)
| Text (data : string)
| CDATASection (data : string)
| ProcessingInstructionNode (target data : string)
| Comment (data : string)
| DocumentTypeNode (name : string).

Definition nodeType (n : node) : Z :=
  match n with
  | Element _ _ _ _ => 1
  | Text _ => 3
  | CDATASection _ => 4
  | ProcessingInstructionNode _ _ => 7
  | Comment _ => 8
  | DocumentTypeNode _ => 10
  end.

Definition getNodeName (n : node) : string :=
  match n with
  | Element nodeName _ _ _ => nodeName
  | Text _ => "#text"
  | CDATASection _ => "#cdata-section"
  | ProcessingInstructionNode target _ => target
  | Comment _ => "#comment"
  | DocumentTypeNode name => name
  end.

(** [node.childNodes]; an empty list stands for the missing or empty list
    of a node that is not an element, which the source treats alike. *)
Definition getChildNodes (n : node) : list node :=
  match n with
  | Element _ _ _ childNodes => childNodes
  | _ => []
  end.

(** [node.textContent]: [None] is null. *)
Fixpoint textContent (n : node) : option string :=
  match n with
  | Element _ _ _ childNodes =>
      Some ((fix each (l : list node) : string :=
               match l with
               | [] => ""
               | c :: l' =>
                   match c with
                   | ProcessingInstructionNode _ _ | Comment _ => each l'
                   | _ => match textContent c with
                          | Some s => s
                          | None => ""
                          end +:+ each l'
                   end
               end) childNodes)
  | Text data | CDATASection data | Comment data => Some data
  | ProcessingInstructionNode _ data => Some data
  | DocumentTypeNode _ => None
  end.

Definition isErrorNode (n : option node) : bool :=
  match n with
  | Some n => String.eqb (getNodeName n) "parsererror"
  | None => false
  end.

Definition findDOMParserError (n : node) : option string :=
  let child := head (getChildNodes n) in
  let grandchild :=
    match child with
    | Some c => head (getChildNodes c)
    | None => None
    end in
  let errorNode :=
    if isErrorNode child then child
    else if isErrorNode grandchild then grandchild
    else None in
  match errorNode with
  | Some e => textContent e
  | None => None
  end.

(* ================================================================== *)
(** * The tree transformer *)
(* ================================================================== *)

Definition DocumentFragment : component :=
  fun props =>
    Return (match Obj.get props "children" with
            | Some v => v
            | None => VUndefined
            end).

(** [props.name] and the like, as a template literal prints it. *)
Definition printProp (p : props) (key : string) : string :=
  toString (match Obj.get p key with
            | Some v => v
            | None => VUndefined
            end).

Definition DocumentType : component :=
  fun props => Return (VStr ("<!doctype " +:+ printProp props "name" +:+ ">")).

Definition ProcessingInstruction : component :=
  fun props =>
    Return (VStr ("<!" +:+ printProp props "target" +:+ " "
                  +:+ printProp props "data" +:+ ">")).

Definition defaultClassMap : gmap string component :=
  <["DocumentFragment" := DocumentFragment]>
    (<["DocumentType" := DocumentType]>
       (<["ProcessingInstruction" := ProcessingInstruction]> ∅)).

(** [!!v] *)
Definition truthyValue (v : jsval) : bool :=
  match v with
  | VUndefined | VNull => false
  | VBool b => b
  | VNum n => negb (Z.eqb n 0)
  | VStr s => Nat.ltb 0 (String.length s)
  | VArr _ | VObj _ | VTypeError | VPromise _ _ _ => true
  end.

(** [!!nameData] *)
Definition truthyName (nameData : name) : bool :=
  match nameData with
  | NTag tag => Nat.ltb 0 (String.length tag)
  | NComponent _ => true
  | NUndefined => false
  | NValue v => truthyValue v
  end.

(** What an object created by an object literal or by [Object.assign({}, ...)]
    inherits from [Object.prototype] under a name that can be a class name:
    [__proto__] is [Object.prototype] itself, an object without enumerable
    properties, and the four legacy accessor helpers are functions that
    throw a TypeError when called without a receiver.  The other properties
    of [Object.prototype] have lower-case names, for which the class map is
    not consulted. *)
Definition inheritedProperty (key : string) : option name :=
  if String.eqb key "__proto__" then Some (NValue (VObj []))
  else if String.eqb key "__defineGetter__" || String.eqb key "__defineSetter__"
          || String.eqb key "__lookupGetter__" || String.eqb key "__lookupSetter__"
  then Some (NComponent (fun _ => Throw VTypeError))
  else None.

(** [o[name] = v] on an object created by an object literal: the name
    [__proto__] reaches the setter inherited from [Object.prototype], which
    creates no property. *)
Definition assignProperty {A : Type} (o : list (string * A)) (name : string) (v : A)
  : list (string * A) :=
  if String.eqb name "__proto__" then o else Obj.set o name v.

(** [classMap.Name], undefined when the map has no such entry. *)
Definition classMapEntry (classMap : gmap string component) (key : string) : name :=
  match classMap !! key with
  | Some c => NComponent c
  | None => NUndefined
  end.

Definition transformAttributes (attributes : list (string * string))
  : list (string * decoded) :=
  fold_left
    (fun attributeData attribute =>
       assignProperty attributeData (fst attribute) (transformText (snd attribute)))
    attributes [].

Definition transformDocumentType (name : string) (classMap : gmap string component)
  : tree :=
  DNode (classMapEntry classMap "DocumentType") [("name", JustString name)] [].

Definition transformProcessingInstruction (target data : string)
  (classMap : gmap string component) : tree :=
  DNode (classMapEntry classMap "ProcessingInstruction")
        [("data", JustString data); ("target", JustString target)] [].

Definition notFound (localName : string) : string :=
  "Couldn't find definition for " +:+ Str.quote +:+ localName +:+ Str.quote +:+ ".".

(** [localName[0] === localName[0].toUpperCase()] *)
Definition isClassName (c : ascii) : bool := negb (Str.changedByToUpperCase c).

(** One step of the [forEach] of [transformNodes]. *)
Definition appendTransformed (result : list tree) (n : node) (transformed : tree)
  : list tree :=
  if Z.eqb (nodeType n) 3
  then result ++ concatArgument transformed
  else result ++ [transformed].

Section Transformer.

(** The properties of the global object: a function is [NComponent], any
    other value is [NValue]. *)
Variable global : gmap string name.

(** [classMap[localName] || global[localName]].  The class map is an object
    created by [Object.assign({}, ...)]: a name it has no entry for may
    still be inherited from [Object.prototype].  A falsy result, which the
    caller only tests with [!nameData], is written [NUndefined]. *)
Definition lookupClass (classMap : gmap string component) (localName : string) : name :=
  match classMap !! localName with
  | Some c => NComponent c
  | None =>
      match inheritedProperty localName with
      | Some inherited => inherited
      | None =>
          match global !! localName with
          | Some binding => if truthyName binding then binding else NUndefined
          | None => NUndefined
          end
      end
  end.

Fixpoint transformNode (n : node) (classMap : gmap string component)
  : completion tree :=
  match n with
  | Text data => Return (ofDecoded (transformText data))
  | ProcessingInstructionNode target data =>
      Return (transformProcessingInstruction target data classMap)
  | DocumentTypeNode name => Return (transformDocumentType name classMap)
  | CDATASection _ | Comment _ => Throw VTypeError
  | Element _ localName attributes childNodes =>
      match localName with
      | EmptyString => Throw VTypeError
      | String first _ =>
          let nameData :=
            if isClassName first then lookupClass classMap localName
            else NTag localName in
          match nameData with
          | NUndefined => Throw (VStr (notFound localName))
          | _ =>
              let attributeData := transformAttributes attributes in
              let! childrenData :=
                (fix forEach (nodes : list node) (result : list tree)
                   : completion (list tree) :=
                   match nodes with
                   | [] => Return result
                   | child :: nodes' =>
                       let! transformed := transformNode child classMap in
                       forEach nodes' (appendTransformed result child transformed)
                   end) childNodes [] in
              Return (DNode nameData attributeData childrenData)
          end
      end
  end.

(** The loop of [transformNodes], from a given [result]. *)
Fixpoint transformNodesFrom (nodes : list node) (classMap : gmap string component)
  (result : list tree) : completion (list tree) :=
  match nodes with
  | [] => Return result
  | child :: nodes' =>
      let! transformed := transformNode child classMap in
      transformNodesFrom nodes' classMap (appendTransformed result child transformed)
  end.

Definition transformNodes (nodes : list node) (classMap : gmap string component)
  : completion (list tree) :=
  transformNodesFrom nodes classMap [].

(* ================================================================== *)
(** * Parsing and the cache *)
(* ================================================================== *)

(** [domParser.parseFromString(text, 'text/xml').firstChild]: the parser
    is an external library; [None] is a document without a child. *)
Variable parseFromString : string -> completion (option node).

Definition extendedClassMap (classMap : gmap string component)
  : gmap string component :=
  classMap ∪ defaultClassMap.

Definition parseJSX (jsx : string) (classMap : gmap string component)
  : completion tree :=
  let trimmed := Str.trim jsx in
  let wrapped := "<DocumentFragment>" +:+ trimmed +:+ "</DocumentFragment>" in
  let extended := extendedClassMap classMap in
  let! firstChild := parseFromString wrapped in
  match firstChild with
  | None => Throw VTypeError
  | Some wrapperNode =>
      match findDOMParserError wrapperNode with
      | Some (String c e) => Throw (VStr (String c e))
      | _ =>
          let n :=
            match getChildNodes wrapperNode with
            | [only] => only
            | _ => wrapperNode
            end in
          transformNode n extended
      end
  end.

Definition parse (strings : list string) (classMap : gmap string component)
  : completion tree :=
  let jsx :=
    Str.concat
      (imap (fun index string =>
               let marker :=
                 if Nat.ltb index (length strings - 1) then marker index else "" in
               string +:+ marker) strings) in
  parseJSX jsx classMap.

(** The array of literal segments of a template literal: the cache is
    keyed by the identity of the array, not by its contents. *)
Record templateStrings : Type := {
  identity : positive;
  segments : list string
}.

(** Returns the data, or the exception, and the cache afterwards. *)
Definition parseAndCache (strings : templateStrings)
  (classMap : gmap string component) (cache : gmap positive tree)
  : completion tree * gmap positive tree :=
  let parsed :=
    match parse (segments strings) classMap with
    | Return data => (Return data, <[identity strings := data]> cache)
    | Throw e => (Throw e, cache)
    end in
  match cache !! identity strings with
  | Some data => if truthy data then (Return data, cache) else parsed
  | None => parsed
  end.

End Transformer.

(* ================================================================== *)
(** * The renderer *)
(* ================================================================== *)

(** The three operations of an output target.  [children] is called with
    the substitutions as a second argument on the asynchronous path only;
    [None] is the call with a single argument. *)
Record renderers : Type := {
  value : jsval -> completion jsval;
  element : jsval -> props -> jsval -> completion jsval;
  children : list jsval -> option (list jsval) -> completion jsval
}.

(* ------------------------------------------------------------------ *)
(** ** The text renderer *)

Definition renderValueToText (v : jsval) : completion jsval := Return v.

Definition renderChildrenToText (children : list jsval) (_ : option (list jsval))
  : completion jsval :=
  Return (VStr (joinEmpty children)).

Definition renderElementToText (tag : jsval) (attributes : props) (children : jsval)
  : completion jsval :=
  let attributeText :=
    Str.concat
      (map (fun name =>
              " " +:+ name +:+ "=" +:+ Str.quote +:+ printProp attributes name
              +:+ Str.quote)
           (Obj.keys attributes)) in
  Return (VStr ("<" +:+ toString tag +:+ attributeText +:+ ">"
                +:+ toString children +:+ "</" +:+ toString tag +:+ ">")).

Definition textRenderers : renderers := {|
  value := renderValueToText;
  element := renderElementToText;
  children := renderChildrenToText
|}.

(* ------------------------------------------------------------------ *)
(** ** Attributes *)

(** [renderToText(item, substitutions)] for a string or a number: the
    first two branches of [render] with the text renderer, whose [value]
    returns its argument (see [renderToText_ofPart]). *)
Definition renderToTextItem (item : part) (substitutions : list jsval) : jsval :=
  match item with
  | PStr s => VStr s
  | PNum n => index substitutions n
  end.

(** The value that [resolveAttributes] stores for one attribute. *)
Definition resolveAttribute (v : decoded) (substitutions : list jsval) : jsval :=
  match v with
  | Parts items =>
      VStr (joinEmpty (map (fun item => renderToTextItem item substitutions) items))
  | JustString s => renderToTextItem (PStr s) substitutions
  | JustIndex n => renderToTextItem (PNum n) substitutions
  end.

Definition resolveAttributes (attributesData : list (string * decoded))
  (substitutions : list jsval) : props :=
  fold_left
    (fun resolved entry =>
       Obj.set resolved (fst entry) (resolveAttribute (snd entry) substitutions))
    attributesData [].

(* ------------------------------------------------------------------ *)
(** ** Rendering *)

Definition renderComponent (c : component) (attributes : props) (children : jsval)
  : completion jsval :=
  let props := Obj.assign (Obj.assign [] attributes) [("children", children)] in
  c props.

(** The callback given to [Promise.all(rendered).then]: the promise fulfils
    with an array. *)
Definition childrenOfSettled (renderers : renderers) (substitutions : list jsval)
  (settled : jsval) : completion jsval :=
  match settled with
  | VArr items => children renderers items (Some substitutions)
  | _ => Throw VTypeError
  end.

(** [renderChildren] once every child has been rendered. *)
Definition combineRendered (rendered : list jsval) (substitutions : list jsval)
  (renderers : renderers) : completion jsval :=
  let anyPromises := existsb isPromise rendered in
  if anyPromises
  then Return (then_ (promiseAll rendered) (childrenOfSettled renderers substitutions))
  else children renderers rendered None.

(** What [render] calls for a triple: [renderComponent] on a function,
    [renderers.element] otherwise. *)
Definition topRenderer (renderers : renderers) (nameData : name)
  : props -> jsval -> completion jsval :=
  match nameData with
  | NComponent c => renderComponent c
  | NTag tag => element renderers (VStr tag)
  | NUndefined => element renderers VUndefined
  | NValue v => element renderers v
  end.

(** An array of parts given to [render] is taken for a triple: its third
    element, where there is one, is a string or a number, on which
    [childrenData.map] is not a function. *)
Fixpoint render (d : tree) (substitutions : list jsval) (renderers : renderers)
  : completion jsval :=
  match d with
  | DStr s => value renderers (VStr s)
  | DNum n => value renderers (index substitutions n)
  | DParts _ => Throw VTypeError
  | DNode nameData attributesData childrenData =>
      let resolvedAttributes := resolveAttributes attributesData substitutions in
      let! rendered :=
        (fix each (l : list tree) : completion (list jsval) :=
           match l with
           | [] => Return []
           | child :: l' =>
               let! r := render child substitutions renderers in
               let! rs := each l' in
               Return (r :: rs)
           end) childrenData in
      let! awaitedChildren := combineRendered rendered substitutions renderers in
      if isPromise awaitedChildren
      then Return (then_ awaitedChildren
                     (fun children =>
                        topRenderer renderers nameData resolvedAttributes children))
      else topRenderer renderers nameData resolvedAttributes awaitedChildren
  end.

Definition renderChildren (childrenData : list tree) (substitutions : list jsval)
  (renderers : renderers) : completion jsval :=
  let! rendered := mapM (fun child => render child substitutions renderers) childrenData in
  combineRendered rendered substitutions renderers.

Definition renderToText (d : tree) (substitutions : list jsval) : completion jsval :=
  render d substitutions textRenderers.

(* ------------------------------------------------------------------ *)
(** ** The template literals *)

Section Templates.

Variable global : gmap string name.
Variable parseFromString : string -> completion (option node).

(** [jsxToTextWith(classMap)] applied to a template: the closure keeps its
    own cache, passed in and out here.  [jsxToText] is the same with the
    empty class map and the default cache. *)
Definition jsxToTextWith (classMap : gmap string component)
  (cache : gmap positive tree) (strings : templateStrings) (values : list jsval)
  : completion jsval * gmap positive tree :=
  match parseAndCache global parseFromString strings classMap cache with
  | (Return d, cache') => (renderToText d values, cache')
  | (Throw e, cache') => (Throw e, cache')
  end.

Definition jsxToText (defaultCache : gmap positive tree)
  (strings : templateStrings) (values : list jsval)
  : completion jsval * gmap positive tree :=
  jsxToTextWith ∅ defaultCache strings values.

End Templates.

(* ================================================================== *)
(** * Predicates used in the statements *)
(* ================================================================== *)

(** No literal of a decoded text is the empty string. *)
Definition noEmptyLiteral (d : decoded) : Prop :=
  match d with
  | JustString s => s <> ""
  | JustIndex _ => True
  | Parts items => ~ In (PStr "") items
  end.

(** What [render] passes to [renderers.value] for a string or a number. *)
Definition valueArgument (item : part) (substitutions : list jsval) : jsval :=
  match item with
  | PStr s => VStr s
  | PNum n => index substitutions n
  end.

(* ------------------------------------------------------------------ *)
(** ** Sample inputs *)

(** A parser that knows a single document. *)
Definition parserOf (text : string) (firstChild : node)
  : string -> completion (option node) :=
  fun s => if String.eqb s text then Return (Some firstChild) else Return None.

(** The component [Bold] of the repository's tests. *)
Definition Bold : component :=
  fun props => Return (VStr ("<b>" +:+ printProp props "children" +:+ "</b>")).

(** The component [Async] of the repository's tests: it settles after the
    delay given by its [delay] attribute. *)
Definition Async : component :=
  fun props =>
    let delay :=
      match Obj.get props "delay" with
      | Some (VStr s) => N.to_nat (Str.parseInt s)
      | _ => 0
      end in
    Return (VPromise delay Fulfilled (VStr ("[" +:+ printProp props "children" +:+ "]"))).

(** An output target other than text: [value] wraps what it is given, in
    the manner of a renderer that creates a text node. *)
Definition nodeRenderers : renderers := {|
  value := fun v => Return (VObj [("text", v)]);
  element := fun tag attributes children =>
               Return (VObj (("tag", tag) :: ("children", children) :: attributes));
  children := fun rendered _ => Return (VArr rendered)
|}.

(* ------------------------------------------------------------------ *)
(** ** Predicates on text *)

(** Every character of [s] is white space. *)
Fixpoint allSpace (s : string) : bool :=
  match s with
  | EmptyString => true
  | String c s' => Str.is_space c && allSpace s'
  end.

(** No character of [s] is an opening square bracket. *)
Fixpoint noBracket (s : string) : bool :=
  match s with
  | EmptyString => true
  | String c s' => negb (Ascii.eqb c "[") && noBracket s'
  end.

(** The parts of a split written back: a literal, then each captured run
    of digits between its brackets followed by the next literal. *)
Fixpoint reassemble (parts : list string) : string :=
  match parts with
  | [] => ""
  | [lit] => lit
  | lit :: ds :: rest => lit +:+ "[[[" +:+ ds +:+ "]]]" +:+ reassemble rest
  end.

(** A list that starts with a literal and continues in pairs of a
    non-empty run of digits and a literal. *)
Fixpoint alternates (parts : list string) : Prop :=
  match parts with
  | [] => False
  | [lit] => True
  | lit :: ds :: rest => ds <> "" /\ Str.all_digits ds = true /\ alternates rest
  end.

(** No two neighbours of a list of parts are both literals. *)
Fixpoint literalsApart (items : list part) : Prop :=
  match items with
  | PStr _ :: ((PStr _ :: _) as rest) => False
  | _ :: rest => literalsApart rest
  | [] => True
  end.

(** The items that the parts of a split stand for: a literal for each part
    at an even position, the index it denotes for each run of digits. *)
Fixpoint itemsOfParts (parts : list string) : list part :=
  match parts with
  | [] => []
  | [lit] => [PStr lit]
  | lit :: ds :: rest => PStr lit :: PNum (Str.parseInt ds) :: itemsOfParts rest
  end.

(* ------------------------------------------------------------------ *)
(** ** Predicates on trees and on the DOM *)

(** What a child of a triple may be: a non-empty string, a number or a
    triple, and not an array of parts. *)
Definition properChild (d : tree) : Prop :=
  match d with
  | DStr s => s <> ""
  | DNum _ => True
  | DNode _ _ _ => True
  | DParts _ => False
  end.

(** Every child, at every depth, is a proper child. *)
Inductive childrenProper : tree -> Prop :=
| childrenProper_str (s : string) : childrenProper (DStr s)
| childrenProper_num (n : N) : childrenProper (DNum n)
| childrenProper_parts (items : list part) : childrenProper (DParts items)
| childrenProper_node (nameData : name) (attributesData : list (string * decoded))
    (childrenData : list tree) :
    Forall (fun child => properChild child /\ childrenProper child) childrenData ->
    childrenProper (DNode nameData attributesData childrenData).

(** A tree without components and without arrays of parts. *)
Inductive plain : tree -> Prop :=
| plain_str (s : string) : plain (DStr s)
| plain_num (n : N) : plain (DNum n)
| plain_tag (tag : string) (attributesData : list (string * decoded))
    (childrenData : list tree) :
    Forall plain childrenData -> plain (DNode (NTag tag) attributesData childrenData)
| plain_undefined (attributesData : list (string * decoded))
    (childrenData : list tree) :
    Forall plain childrenData -> plain (DNode NUndefined attributesData childrenData).



(* ------------------------------------------------------------------ *)
(** ** Values that print as modelled *)

(** The values on which [ToString] returns what [toString] gives.  A number
    must be a safe integer, which prints in plain decimal.  A plain object
    must not have a property named [toString] of its own: such a property
    is not callable here, and [ToString] would throw.  An error object is
    left out because its message is not modelled.  An array prints its
    elements, so they must print as modelled too. *)
Fixpoint printable (v : jsval) : bool :=
  match v with
  | VUndefined | VNull | VBool _ | VStr _ => true
  | VNum n => Z.ltb (Z.abs n) (2 ^ 53)
  | VArr items =>
      (fix each (l : list jsval) : bool :=
         match l with
         | [] => true
         | x :: l' => printable x && each l'
         end) items
  | VObj fields => negb (existsb (String.eqb "toString") (map fst fields))
  | VTypeError => false
  | VPromise _ _ _ => true
  end.

(* ================================================================== *)
(** * Properties of the marker codec *)
(* ================================================================== *)

Example transformText_plain :
  transformText "   Hello, world   " = JustString " Hello, world ".
Proof. reflexivity. Qed.

Example transformText_mixed :
  transformText "[[[0]]]foo[[[1]]]" = Parts [PNum 0; PStr "foo"; PNum 1].
Proof. reflexivity. Qed.

Example transformText_spaced :
  transformText "  [[[3]]]  " = Parts [PStr " "; PNum 3; PStr " "].
Proof. reflexivity. Qed.

Example transformText_brackets :
  transformText "a[[[[12]]]] [[[x]]]" = Parts [PStr "a["; PNum 12; PStr "] [[[x]]]"].
Proof. reflexivity. Qed.

Lemma append_length (a b : string) :
  String.length (a +:+ b) = String.length a + String.length b.
Proof. induction a as [|c a IH]; simpl; [reflexivity | now rewrite IH]. Qed.

Lemma append_nonempty (a b c : string) : b <> "" -> a +:+ b +:+ c <> "".
Proof.
  intros Hb. destruct a; simpl; [|discriminate].
  destruct b; [congruence | discriminate].
Qed.

Lemma length_zero_empty (s : string) : Nat.eqb (String.length s) 0 = false -> s <> "".
Proof. destruct s; simpl; [discriminate | intros _; discriminate]. Qed.

Lemma collapseWhitespace_nonempty (s : string) : collapseWhitespace s <> "".
Proof.
  unfold collapseWhitespace.
  destruct (Nat.eqb (String.length (Str.trim s)) 0) eqn:E; [discriminate|].
  apply append_nonempty, length_zero_empty, E.
Qed.

Lemma takeDigits_run (ds rest : string) :
  Str.all_digits ds = true ->
  Str.startsWithDigit rest = false ->
  takeDigits (ds +:+ rest) = (ds, rest).
Proof.
  intros Hds Hrest. induction ds as [|c ds IH]; simpl in *.
  - destruct rest as [|r rest]; [reflexivity|]. simpl in *. now rewrite Hrest.
  - apply andb_true_iff in Hds as [Hc Hds]. now rewrite Hc, IH.
Qed.

Lemma matchMarker_token (ds rest : string) :
  ds <> "" -> Str.all_digits ds = true ->
  matchMarker ("[[[" +:+ ds +:+ "]]]" +:+ rest) = Some (ds, rest).
Proof.
  intros Hne Hds.
  change ("[[[" +:+ ds +:+ "]]]" +:+ rest)
    with (String "[" (String "[" (String "[" (ds +:+ "]]]" +:+ rest)))).
  unfold matchMarker.
  rewrite (takeDigits_run ds ("]]]" +:+ rest) Hds eq_refl).
  destruct ds; [congruence | reflexivity].
Qed.

Lemma splitFrom_skip_all (s lit : string) :
  splitFrom s (String.length s) lit = [Str.rev lit].
Proof. induction s as [|c s IH]; simpl; [reflexivity | apply IH]. Qed.

Lemma splitMarkers_token (ds : string) :
  ds <> "" -> Str.all_digits ds = true ->
  splitMarkers ("[[[" +:+ ds +:+ "]]]") = [""; ds; ""].
Proof.
  intros Hne Hds. unfold splitMarkers.
  pose proof (matchMarker_token ds "" Hne Hds) as Hm.
  change ("[[[" +:+ ds +:+ "]]]" +:+ "") with ("[[[" +:+ ds +:+ "]]]") in Hm.
  change ("[[[" +:+ ds +:+ "]]]") with (String "[" ("[[" +:+ ds +:+ "]]]")) in *.
  cbn [splitFrom]. rewrite Hm.
  replace (5 + String.length ds) with (String.length ("[[" +:+ ds +:+ "]]]")).
  - now rewrite splitFrom_skip_all.
  - rewrite !append_length. simpl. lia.
Qed.

Lemma transformText_noEmptyLiteral (text : string) : noEmptyLiteral (transformText text).
Proof.
  unfold transformText.
  destruct (Nat.eqb (length (splitMarkers (collapseWhitespace text))) 1).
  - apply collapseWhitespace_nonempty.
  - set (stripped := List.filter nonEmptyItem _).
    assert (Hin : ~ In (PStr "") stripped).
    { intros Hin. apply filter_In in Hin as [_ Hf]. discriminate Hf. }
    destruct stripped as [|[s|n] [|? ?]]; simpl; auto.
Qed.

(** C4. When the text, once its white space is collapsed, is exactly one
    marker (three opening brackets, decimal digits, three closing brackets),
    [transformText] returns the bare index that the digits denote, not an
    array holding it; and whatever the text, no literal of the result is
    the empty string. *)
Theorem transformText_compact_index (text ds : string) :
  (ds <> "" ->
   Str.all_digits ds = true ->
   collapseWhitespace text = "[[[" +:+ ds +:+ "]]]" ->
   transformText text = JustIndex (Str.parseInt ds))
  /\ noEmptyLiteral (transformText text).
Proof.
  split; [|apply transformText_noEmptyLiteral].
  intros Hne Hds Hc.
  unfold transformText. rewrite Hc, splitMarkers_token by assumption.
  simpl. destruct ds; [congruence | reflexivity].
Qed.

Lemma transformText_compact_index_witness : transformText "[[[42]]]" = JustIndex 42.
Proof.
  apply (proj1 (transformText_compact_index "[[[42]]]" "42"));
    [discriminate | reflexivity | reflexivity].
Defined.

(* ================================================================== *)
(** * Properties of the tree transformer *)
(* ================================================================== *)

Section TransformerFacts.

Variable global : gmap string name.

(** The children of an element are transformed by [transformNodes]. *)
Lemma transformNode_element (nodeName : string) (first : ascii) (rest : string)
  (attributes : list (string * string)) (childNodes : list node)
  (classMap : gmap string component) :
  transformNode global (Element nodeName (String first rest) attributes childNodes)
    classMap =
  let localName := String first rest in
  let nameData :=
    if isClassName first then lookupClass global classMap localName
    else NTag localName in
  match nameData with
  | NUndefined => Throw (VStr (notFound localName))
  | _ =>
      let! childrenData := transformNodes global childNodes classMap in
      Return (DNode nameData (transformAttributes attributes) childrenData)
  end.
Proof.
  assert (Hloop : forall nodes result,
    (fix forEach (nodes : list node) (result : list tree) : completion (list tree) :=
       match nodes with
       | [] => Return result
       | child :: nodes' =>
           let! transformed := transformNode global child classMap in
           forEach nodes' (appendTransformed result child transformed)
       end) nodes result = transformNodesFrom global nodes classMap result).
  { induction nodes as [|child nodes IH]; intros result; simpl; [reflexivity|].
    destruct (transformNode global child classMap); simpl; auto. }
  cbn [transformNode]. cbv zeta.
  destruct (if isClassName first then _ else _);
    unfold transformNodes; try rewrite Hloop; reflexivity.
Qed.


Lemma upper_not_inherited (first : ascii) (rest : string) :
  Str.is_upper first = true -> inheritedProperty (String first rest) = None.
Proof.
  destruct first as [[] [] [] [] [] [] [] []]; vm_compute; intros H;
    first [reflexivity | discriminate H].
Qed.


(** An element that transforms at all transforms to a triple, never to a
    string, and [transformNodes] appends that triple as one child. *)
Lemma transformNode_element_is_triple (nodeName localName : string)
  (attributes : list (string * string)) (childNodes : list node)
  (classMap : gmap string component) (d : tree) (result : list tree) :
  let el := Element nodeName localName attributes childNodes in
  transformNode global el classMap = Return d ->
  (exists nameData childrenData,
     d = DNode nameData (transformAttributes attributes) childrenData)
  /\ appendTransformed result el d = result ++ [d].
Proof.
  intros el Hd. split; [|reflexivity].
  unfold el in Hd. destruct localName as [|first rest]; [discriminate Hd|].
  rewrite transformNode_element in Hd. cbv zeta in Hd.
  destruct (if isClassName first then _ else _) as [tag|c| |v]; try discriminate Hd;
    destruct (transformNodes global childNodes classMap) as [cs|];
    try discriminate Hd; injection Hd as <-; eauto.
Qed.

End TransformerFacts.


Section ClassMapFacts.

Variable global : gmap string name.
Variable parseFromString : string -> completion (option node).

Lemma extendedClassMap_lookup (classMap : gmap string component) (key : string) :
  extendedClassMap classMap !! key =
  match classMap !! key with
  | Some c => Some c
  | None => defaultClassMap !! key
  end.
Proof.
  unfold extendedClassMap. rewrite lookup_union.
  destruct (classMap !! key), (defaultClassMap !! key); reflexivity.
Qed.

Lemma defaultClassMap_lookup (key : string) :
  defaultClassMap !! key =
  if String.eqb key "DocumentFragment" then Some DocumentFragment
  else if String.eqb key "DocumentType" then Some DocumentType
  else if String.eqb key "ProcessingInstruction" then Some ProcessingInstruction
  else None.
Proof.
  unfold defaultClassMap.
  destruct (String.eqb_spec key "DocumentFragment") as [->|H1]; [reflexivity|].
  rewrite lookup_insert_ne by congruence.
  destruct (String.eqb_spec key "DocumentType") as [->|H2]; [reflexivity|].
  rewrite lookup_insert_ne by congruence.
  destruct (String.eqb_spec key "ProcessingInstruction") as [->|H3]; [reflexivity|].
  rewrite lookup_insert_ne by congruence. apply lookup_empty.
Qed.

Lemma extendedClassMap_idempotent (classMap : gmap string component) :
  extendedClassMap (extendedClassMap classMap) = extendedClassMap classMap.
Proof.
  apply map_eq. intros key. rewrite !extendedClassMap_lookup.
  destruct (classMap !! key); [reflexivity|].
  destruct (defaultClassMap !! key); reflexivity.
Qed.

(** C10. The class map that a parse uses is the caller's map laid over the
    three built-in components: an entry of the caller's map wins, also
    against a built-in of the same name, and the built-ins are
    DocumentFragment, DocumentType and ProcessingInstruction.  It is this
    overlaid map that [parseJSX] hands to the transformation of the root,
    so that parsing with the caller's map and parsing with the overlaid map
    give the same result.  An element with a class name takes its component
    from the caller's map, else from the built-ins, else from what the map
    inherits from [Object.prototype], and only when none of these has the
    name from the global object, whose binding counts when it is truthy.
    No name that starts with an upper-case letter is inherited, so for such
    a name the global object is consulted exactly when neither the caller's
    map nor the built-ins contain it. *)
Theorem extendedClassMap_resolution (classMap : gmap string component)
  (jsx nodeName : string) (first : ascii) (rest : string)
  (attributes : list (string * string)) (childNodes : list node)
  (wrapperNode : node) :
  let localName := String first rest in
  let extended := extendedClassMap classMap in
  let build nameData :=
    let! childrenData := transformNodes global childNodes extended in
    Return (DNode nameData (transformAttributes attributes) childrenData) in
  (forall key,
     extended !! key =
     match classMap !! key with
     | Some c => Some c
     | None =>
         if String.eqb key "DocumentFragment" then Some DocumentFragment
         else if String.eqb key "DocumentType" then Some DocumentType
         else if String.eqb key "ProcessingInstruction" then Some ProcessingInstruction
         else None
     end)
  /\ (parseFromString
        ("<DocumentFragment>" +:+ Str.trim jsx +:+ "</DocumentFragment>")
      = Return (Some wrapperNode) ->
      findDOMParserError wrapperNode = None ->
      parseJSX global parseFromString jsx classMap
      = transformNode global
          (match getChildNodes wrapperNode with
           | [only] => only
           | _ => wrapperNode
           end)
          extended)
  /\ parseJSX global parseFromString jsx classMap
     = parseJSX global parseFromString jsx extended
  /\ transformNode global (Element nodeName localName attributes childNodes) extended =
     (if isClassName first then
        match classMap !! localName with
        | Some c => build (NComponent c)
        | None =>
            match defaultClassMap !! localName with
            | Some c => build (NComponent c)
            | None =>
                match inheritedProperty localName with
                | Some inherited => build inherited
                | None =>
                    match global !! localName with
                    | Some binding =>
                        if truthyName binding then build binding
                        else Throw (VStr (notFound localName))
                    | None => Throw (VStr (notFound localName))
                    end
                end
            end
        end
      else build (NTag localName))
  /\ (Str.is_upper first = true -> inheritedProperty localName = None).
Proof.
  intros localName extended build. split; [|split; [|split; [|split]]].
  - intros key. unfold extended.
    rewrite extendedClassMap_lookup, defaultClassMap_lookup. reflexivity.
  - intros Hparse Herror. unfold parseJSX. rewrite Hparse. cbn [bind].
    rewrite Herror. reflexivity.
  - unfold parseJSX, extended. rewrite extendedClassMap_idempotent. reflexivity.
  - unfold localName. rewrite transformNode_element. cbv zeta.
    destruct (isClassName first); [|reflexivity].
    unfold lookupClass, extended.
    rewrite extendedClassMap_lookup.
    destruct (classMap !! String first rest); [reflexivity|].
    destruct (defaultClassMap !! String first rest); [reflexivity|].
    destruct (inheritedProperty (String first rest)) as [inherited|] eqn:Hinherited.
    + unfold inheritedProperty in Hinherited.
      destruct (String.eqb (String first rest) "__proto__");
        [injection Hinherited as <-; reflexivity|].
      destruct (String.eqb _ "__defineGetter__" || _ || _ || _);
        [injection Hinherited as <-; reflexivity | discriminate Hinherited].
    + destruct (global !! String first rest) as [binding|]; [|reflexivity].
      destruct binding as [tag|c| |v]; cbn [truthyName]; try reflexivity.
      * destruct (Nat.ltb 0 (String.length tag)) eqn:Htag; [|reflexivity].
        destruct tag; [discriminate Htag | reflexivity].
      * destruct (truthyValue v) eqn:Hv; [|reflexivity].
        destruct v; try discriminate Hv; reflexivity.
  - apply upper_not_inherited.
Qed.

End ClassMapFacts.

Lemma extendedClassMap_resolution_witness :
  let mine : component := fun _ => Return (VStr "mine") in
  let wrapperNode :=
    Element "DocumentFragment" "DocumentFragment" []
      [Element "a" "a" [] []; Element "Math" "Math" [] []] in
  let parser :=
    parserOf "<DocumentFragment><a/><Math/></DocumentFragment>" wrapperNode in
  parseJSX {[ "Math" := NValue (VObj []) ]} parser "<a/><Math/>"
    {[ "DocumentFragment" := mine ]}
  = Return (DNode (NComponent mine) []
              [DNode (NTag "a") [] []; DNode (NValue (VObj [])) [] []]).
Proof.
  intros mine wrapperNode parser.
  rewrite (proj1 (proj2 (extendedClassMap_resolution
                           {[ "Math" := NValue (VObj []) ]} parser
                           {[ "DocumentFragment" := mine ]} "<a/><Math/>"
                           "a" "a" "" [] [] wrapperNode))
             eq_refl eq_refl).
  reflexivity.
Defined.

(** An element named [__proto__] takes [Object.prototype] for its name, and
    one named after a global object that is not a function takes that
    object; neither throws. *)
Example transformNode_inherited_name :
  transformNode ∅ (Element "__proto__" "__proto__" [] []) (extendedClassMap ∅)
  = Return (DNode (NValue (VObj [])) [] [])
  /\ transformNode {[ "Math" := NValue (VObj []) ]} (Element "Math" "Math" [] [])
       (extendedClassMap ∅)
     = Return (DNode (NValue (VObj [])) [] [])
  /\ renderToText (DNode (NValue (VObj [])) [] []) []
     = Return (VStr "<[object Object]></[object Object]>").
Proof. repeat split. Qed.

(** A caller's DocumentFragment replaces the built-in one. *)
Example extendedClassMap_override :
  let mine : component := fun _ => Return (VStr "mine") in
  match extendedClassMap {[ "DocumentFragment" := mine ]} !! "DocumentFragment" with
  | Some c => c [] = Return (VStr "mine")
  | None => False
  end.
Proof. reflexivity. Qed.

(* ------------------------------------------------------------------ *)
(** ** Static subtrees *)

(** The DOM of [<div><img src="foo.jpg"/><i>Hello, </i><b>[[[0]]]</b></div>]. *)
Example transformNode_static_siblings :
  transformNode ∅
    (Element "div" "div" []
       [Element "img" "img" [("src", "foo.jpg")] [];
        Element "i" "i" [] [Text "Hello, "];
        Element "b" "b" [] [Text "[[[0]]]"]])
    defaultClassMap
  = Return (DNode (NTag "div") []
              [DNode (NTag "img") [("src", JustString "foo.jpg")] [];
               DNode (NTag "i") [] [DStr "Hello, "];
               DNode (NTag "b") [] [DNum 0]]).
Proof. reflexivity. Qed.

(** C3. On the DOM of the template of the repository's test "flattens
    nodes with no substitutions", the transformer keeps the static [img]
    and [i] elements as two triples in front of the [b] triple; it does not
    merge them into the one string that the test expects as the first
    child. *)
Theorem transformNode_keeps_static_elements :
  let dom :=
    Element "div" "div" []
      [Element "img" "img" [("src", "foo.jpg")] [];
       Element "i" "i" [] [Text "Hello, "];
       Element "b" "b" [] [Text "[[[0]]]"]] in
  let flattened :=
    "<img src=" +:+ Str.quote +:+ "foo.jpg" +:+ Str.quote +:+ "><i>Hello, </i>" in
  transformNode ∅ dom defaultClassMap
  = Return (DNode (NTag "div") []
              [DNode (NTag "img") [("src", JustString "foo.jpg")] [];
               DNode (NTag "i") [] [DStr "Hello, "];
               DNode (NTag "b") [] [DNum 0]])
  /\ transformNode ∅ dom defaultClassMap
     <> Return (DNode (NTag "div") [] [DStr flattened; DNode (NTag "b") [] [DNum 0]]).
Proof. split; [reflexivity | discriminate]. Qed.

(* ================================================================== *)
(** * Properties of parsing and of the cache *)
(* ================================================================== *)

Lemma Obj_get_set {A : Type} (o : list (string * A)) (key : string) (v : A) :
  Obj.get (Obj.set o key v) key = Some v.
Proof.
  induction o as [|[k w] o IH]; simpl.
  - now rewrite String.eqb_refl.
  - destruct (String.eqb k key) eqn:E; simpl; rewrite E; [reflexivity | exact IH].
Qed.

(** The built-in fragment component returns the children it is given. *)
Lemma DocumentFragment_forwards (attributes : props) (children : jsval) :
  renderComponent DocumentFragment attributes children = Return children.
Proof.
  unfold renderComponent, DocumentFragment. cbn [Obj.assign fold_left fst snd].
  now rewrite Obj_get_set.
Qed.

Section ParserFacts.

Variable global : gmap string name.
Variable parseFromString : string -> completion (option node).

(** What [parseJSX] transforms once the parser has returned a wrapper node
    that carries no error. *)
Lemma parseJSX_root (jsx : string) (classMap : gmap string component)
  (wrapperNode : node) :
  parseFromString ("<DocumentFragment>" +:+ Str.trim jsx +:+ "</DocumentFragment>")
  = Return (Some wrapperNode) ->
  findDOMParserError wrapperNode = None ->
  parseJSX global parseFromString jsx classMap =
  transformNode global
    (match getChildNodes wrapperNode with
     | [only] => only
     | _ => wrapperNode
     end)
    (extendedClassMap classMap).
Proof.
  intros Hparse Herror. unfold parseJSX. rewrite Hparse. simpl.
  rewrite Herror. reflexivity.
Qed.

(** C9. [parseJSX] hands the parser the trimmed markup enclosed in a
    DocumentFragment element.  When the wrapper element that comes back has
    exactly one child, the result is the transform of that child.
    Otherwise the result is the triple of the wrapper itself: its children
    are the transformed children of the wrapper, and its component is the
    DocumentFragment entry of the class map in use, which is the built-in
    [DocumentFragment] unless the caller supplied one.  The built-in
    [DocumentFragment] returns the rendered children it receives,
    unchanged. *)
Theorem parseJSX_fragment_wrapper (jsx nodeName : string)
  (classMap : gmap string component)
  (attributes : list (string * string)) (childNodes : list node) :
  let wrapperNode := Element nodeName "DocumentFragment" attributes childNodes in
  let extended := extendedClassMap classMap in
  (parseFromString ("<DocumentFragment>" +:+ Str.trim jsx +:+ "</DocumentFragment>")
   = Return (Some wrapperNode) ->
   findDOMParserError wrapperNode = None ->
   parseJSX global parseFromString jsx classMap =
   match childNodes with
   | [only] => transformNode global only extended
   | _ =>
       let! childrenData := transformNodes global childNodes extended in
       Return (DNode (NComponent (match classMap !! "DocumentFragment" with
                                  | Some c => c
                                  | None => DocumentFragment
                                  end))
                 (transformAttributes attributes) childrenData)
   end)
  /\ forall resolved children,
       renderComponent DocumentFragment resolved children = Return children.
Proof.
  intros wrapperNode extended.
  split; [|apply DocumentFragment_forwards].
  intros Hparse Herror.
  rewrite (parseJSX_root jsx classMap wrapperNode Hparse Herror).
  assert (Hwrapper : transformNode global wrapperNode extended =
    let! childrenData := transformNodes global childNodes extended in
    Return (DNode (NComponent (match classMap !! "DocumentFragment" with
                               | Some c => c
                               | None => DocumentFragment
                               end))
              (transformAttributes attributes) childrenData)).
  { unfold wrapperNode. rewrite transformNode_element. cbv zeta.
    change (isClassName "D") with true. cbv iota.
    unfold lookupClass, extended. rewrite extendedClassMap_lookup.
    destruct (classMap !! "DocumentFragment"); reflexivity. }
  unfold wrapperNode at 1. cbn [getChildNodes].
  destruct childNodes as [|only [|second others]];
    [exact Hwrapper | reflexivity | exact Hwrapper].
Qed.

(** C7. When the cache holds no usable entry for the identity of the
    strings and the parse throws, [parseAndCache] throws the same value and
    leaves the cache as it was.  The next call with that identity therefore
    parses again: it returns what [parse] returns for the class map it is
    given, and stores the tree only when that parse succeeds. *)
Theorem parseAndCache_failure_not_stored (strings : templateStrings)
  (classMap : gmap string component) (cache : gmap positive tree) (e : jsval) :
  parse global parseFromString (segments strings) classMap = Throw e ->
  match cache !! identity strings with
  | Some d => truthy d = false
  | None => True
  end ->
  parseAndCache global parseFromString strings classMap cache = (Throw e, cache)
  /\ forall classMap',
       parseAndCache global parseFromString strings classMap'
         (snd (parseAndCache global parseFromString strings classMap cache))
       = match parse global parseFromString (segments strings) classMap' with
         | Return d => (Return d, <[identity strings := d]> cache)
         | Throw e' => (Throw e', cache)
         end.
Proof.
  intros Hparse Hmiss.
  assert (Hgeneral : forall cm,
    parseAndCache global parseFromString strings cm cache
    = match parse global parseFromString (segments strings) cm with
      | Return d => (Return d, <[identity strings := d]> cache)
      | Throw e' => (Throw e', cache)
      end).
  { intros cm. unfold parseAndCache.
    destruct (cache !! identity strings) as [d|]; [|reflexivity].
    rewrite Hmiss. reflexivity. }
  assert (Hfirst : parseAndCache global parseFromString strings classMap cache
                   = (Throw e, cache)).
  { rewrite Hgeneral, Hparse. reflexivity. }
  split; [exact Hfirst|].
  intros classMap'. rewrite Hfirst. cbn [snd]. apply Hgeneral.
Qed.

(** A call that throws never changes the cache, whatever the cache held. *)
Lemma parseAndCache_throw_keeps_cache (strings : templateStrings)
  (classMap : gmap string component) (cache : gmap positive tree) (e : jsval) :
  fst (parseAndCache global parseFromString strings classMap cache) = Throw e ->
  snd (parseAndCache global parseFromString strings classMap cache) = cache.
Proof.
  unfold parseAndCache.
  destruct (cache !! identity strings) as [d|];
    [destruct (truthy d); [discriminate|]|];
    destruct (parse global parseFromString (segments strings) classMap);
    simpl; intros H; first [discriminate H | reflexivity].
Qed.

End ParserFacts.

(* ================================================================== *)
(** * Properties of the renderer *)
(* ================================================================== *)

Lemma mapM_Forall2 {A B : Type} (f : A -> completion B) (l : list A) (l' : list B) :
  Forall2 (fun a b => f a = Return b) l l' -> mapM f l = Return l'.
Proof.
  induction 1 as [|a b l l' Hab _ IH]; simpl; [reflexivity|].
  now rewrite Hab, IH.
Qed.

Lemma mapM_Return_Forall2 {A B : Type} (f : A -> completion B) (l : list A)
  (l' : list B) :
  mapM f l = Return l' -> Forall2 (fun a b => f a = Return b) l l'.
Proof.
  revert l'. induction l as [|a l IH]; simpl; intros l' H.
  - injection H as <-. constructor.
  - destruct (f a) as [b|] eqn:Ha; [|discriminate].
    destruct (mapM f l) as [bs|]; [|discriminate].
    injection H as <-. constructor; auto.
Qed.

(** A triple is rendered from the result of [renderChildren] on its
    children. *)
Lemma render_node (nameData : name) (attributesData : list (string * decoded))
  (childrenData : list tree) (substitutions : list jsval) (R : renderers) :
  render (DNode nameData attributesData childrenData) substitutions R =
  let resolvedAttributes := resolveAttributes attributesData substitutions in
  let! awaitedChildren := renderChildren childrenData substitutions R in
  if isPromise awaitedChildren
  then Return (then_ awaitedChildren
                 (fun children => topRenderer R nameData resolvedAttributes children))
  else topRenderer R nameData resolvedAttributes awaitedChildren.
Proof.
  assert (Heach : forall l,
    (fix each (l : list tree) : completion (list jsval) :=
       match l with
       | [] => Return []
       | child :: l' =>
           let! r := render child substitutions R in
           let! rs := each l' in
           Return (r :: rs)
       end) l = mapM (fun child => render child substitutions R) l).
  { induction l as [|child l IH]; simpl; [reflexivity|]. now rewrite IH. }
  cbn [render]. rewrite Heach. unfold renderChildren.
  destruct (mapM _ childrenData); reflexivity.
Qed.

Lemma then_isPromise (t : nat) (how : settlement) (v : jsval)
  (f : jsval -> completion jsval) :
  isPromise (then_ (VPromise t how v) f) = true.
Proof.
  destruct how; simpl; [|reflexivity].
  destruct (f v) as [[]|]; reflexivity.
Qed.

Lemma promiseAll_isPromise (l : list jsval) :
  exists t how v, promiseAll l = VPromise t how v.
Proof.
  unfold promiseAll. destruct (firstRejection l) as [[t e]|]; eauto.
Qed.

(** C1. Let [rendered] hold, position by position, what [render] returns
    for each child.  When none of these is a promise, [renderChildren]
    returns at once what [renderers.children] returns for [rendered].  When
    one of them is a promise, [renderChildren] returns a promise; and when
    no child rejects, that promise is the one obtained by calling
    [renderers.children], at the time the slowest child settles (the
    greatest of the delays, not their sum), on the settled values in the
    positions of their children, whatever the order in which they
    settled.  A triple is rendered from this result of [renderChildren]. *)
Theorem renderChildren_waits_in_order (nameData : name)
  (attributesData : list (string * decoded)) (childrenData : list tree)
  (substitutions : list jsval) (R : renderers) (rendered : list jsval) :
  Forall2 (fun child r => render child substitutions R = Return r)
    childrenData rendered ->
  let latest := max_list (map settleTime rendered) in
  (existsb isPromise rendered = false ->
   renderChildren childrenData substitutions R = children R rendered None)
  /\ (existsb isPromise rendered = true ->
      exists p,
        renderChildren childrenData substitutions R = Return p
        /\ isPromise p = true
        /\ (firstRejection rendered = None ->
            p = match children R (map settledValue rendered) (Some substitutions) with
                | Return (VPromise t how w) => VPromise (latest + t) how w
                | Return w => VPromise latest Fulfilled w
                | Throw e => VPromise latest Rejected e
                end))
  /\ render (DNode nameData attributesData childrenData) substitutions R
     = (let! awaitedChildren := renderChildren childrenData substitutions R in
        if isPromise awaitedChildren
        then Return (then_ awaitedChildren
                       (topRenderer R nameData
                          (resolveAttributes attributesData substitutions)))
        else topRenderer R nameData
               (resolveAttributes attributesData substitutions) awaitedChildren).
Proof.
  intros Heach latest.
  assert (Hmap : renderChildren childrenData substitutions R
                 = combineRendered rendered substitutions R).
  { unfold renderChildren. now rewrite (mapM_Forall2 _ _ _ Heach). }
  repeat split.
  - intros Hsync. rewrite Hmap. unfold combineRendered. now rewrite Hsync.
  - intros Hasync. rewrite Hmap. unfold combineRendered. rewrite Hasync.
    eexists. split; [reflexivity|]. split.
    + destruct (promiseAll_isPromise rendered) as (t & how & v & ->).
      apply then_isPromise.
    + intros Hfulfil. unfold promiseAll. rewrite Hfulfil. reflexivity.
  - apply render_node.
Qed.

(* ------------------------------------------------------------------ *)
(** ** Strings and indices *)


Lemma mapM_map {A B C : Type} (g : A -> B) (f : B -> completion C) (l : list A) :
  mapM f (map g l) = mapM (fun a => f (g a)) l.
Proof. induction l as [|a l IH]; simpl; [reflexivity | now rewrite IH]. Qed.

Lemma mapM_ext {A B : Type} (f g : A -> completion B) (l : list A) :
  (forall a, f a = g a) -> mapM f l = mapM g l.
Proof. intros H. induction l as [|a l IH]; simpl; [reflexivity | now rewrite H, IH]. Qed.


(** The claim of C2 fails: with a target whose [value] wraps its argument,
    a literal string does not pass through as it is, alone or as the child
    of an element. *)
Lemma render_literal_not_passed_through :
  render (DStr "hi") [] nodeRenderers = Return (VObj [("text", VStr "hi")])
  /\ render (DStr "hi") [] nodeRenderers <> Return (VStr "hi")
  /\ render (DNode (NTag "p") [] [DStr "hi"]) [] nodeRenderers
     = Return (VObj [("tag", VStr "p");
                     ("children", VArr [VObj [("text", VStr "hi")]])]).
Proof. repeat split; [discriminate]. Qed.

(** C2, amended. [render] calls [renderers.value] on a literal string
    itself, and on the substitution at the index for a number; the
    children of a node that are strings and numbers reach
    [renderers.children] as the results of these calls.  With the text
    renderer, whose [value] returns its argument, a literal string is
    rendered as that string. *)
Theorem render_leaf_calls_value (items : list part) (substitutions : list jsval)
  (R : renderers) :
  (forall s, render (DStr s) substitutions R = value R (VStr s))
  /\ (forall n, render (DNum n) substitutions R = value R (index substitutions n))
  /\ renderChildren (map ofPart items) substitutions R
     = (let! rendered :=
          mapM (fun item => value R (valueArgument item substitutions)) items in
        combineRendered rendered substitutions R)
  /\ (forall s, renderToText (DStr s) substitutions = Return (VStr s)).
Proof.
  repeat split. unfold renderChildren. rewrite mapM_map.
  rewrite (mapM_ext _ (fun item => value R (valueArgument item substitutions)));
    [reflexivity|].
  intros [s|n]; reflexivity.
Qed.

(** The claim of C6 fails: an index beyond the substitutions is rendered
    as undefined, and no exception is raised. *)
Lemma out_of_range_index_renders_undefined :
  render (DNum 0) [] textRenderers = Return VUndefined
  /\ ~ (exists e, render (DNum 0) [] textRenderers = Throw e)
  /\ renderToText (DNode (NTag "p") [] [DStr "a"; DNum 7]) [VStr "x"]
     = Return (VStr "<p>a</p>").
Proof.
  repeat split. intros [e He]. discriminate He.
Qed.

Lemma index_beyond_length (substitutions : list jsval) (n : N) :
  length substitutions <= N.to_nat n -> index substitutions n = VUndefined.
Proof.
  intros Hn. unfold index. now rewrite (proj2 (lookup_ge_None substitutions _) Hn).
Qed.

(** C6, amended. For an index at or beyond the length of the
    substitutions, [render] calls [renderers.value] on undefined and returns
    what it returns; no exception is raised.  The text renderer returns
    undefined, which an enclosing element prints as the empty string. *)
Theorem render_index_out_of_range (n : N) (substitutions : list jsval)
  (R : renderers) :
  length substitutions <= N.to_nat n ->
  render (DNum n) substitutions R = value R VUndefined
  /\ renderToText (DNum n) substitutions = Return VUndefined
  /\ forall tag,
       renderToText (DNode (NTag tag) [] [DNum n]) substitutions
       = Return (VStr ("<" +:+ tag +:+ "></" +:+ tag +:+ ">")).
Proof.
  intros Hn. pose proof (index_beyond_length substitutions n Hn) as Hi.
  repeat split.
  - simpl. now rewrite Hi.
  - unfold renderToText. simpl. unfold renderValueToText. now rewrite Hi.
  - intros tag. unfold renderToText. rewrite render_node. cbv zeta.
    unfold renderChildren. cbn [mapM render value textRenderers].
    unfold renderValueToText. rewrite Hi. reflexivity.
Qed.

Lemma render_index_out_of_range_witness :
  render (DNum 2) [VStr "a"] nodeRenderers = Return (VObj [("text", VUndefined)]).
Proof.
  apply (render_index_out_of_range 2 [VStr "a"] nodeRenderers). simpl. lia.
Defined.

(* ------------------------------------------------------------------ *)
(** ** Attributes *)

Lemma Obj_set_fresh {A : Type} (o : list (string * A)) (key : string) (v : A) :
  ~ In key (Obj.keys o) -> Obj.set o key v = o ++ [(key, v)].
Proof.
  induction o as [|[k w] o IH]; simpl; intros Hfresh; [reflexivity|].
  destruct (String.eqb_spec k key) as [->|Hne]; [tauto|].
  rewrite IH; [reflexivity | tauto].
Qed.





(* ================================================================== *)
(** * The properties at concrete inputs *)
(* ================================================================== *)

(** The repository's test "can render data + values". *)
Example render_span_bold :
  let d :=
    DNode (NTag "span") []
      [DStr "Hello, "; DNode (NComponent Bold) [] [DNum 0]; DStr "."] in
  renderToText d [VStr "world"] = Return (VStr "<span>Hello, <b>world</b>.</span>").
Proof. reflexivity. Qed.

(** The repository's test "waits for async components in parallel": the
    first child settles last, and still comes first. *)
Example render_async_siblings :
  let d :=
    DNode (NTag "span") []
      [DStr " "; DNode (NComponent Async) [("delay", JustString "200")] [DStr "One"];
       DStr " "; DNode (NComponent Async) [("delay", JustString "100")] [DStr "Two"];
       DStr " "] in
  renderToText d [] = Return (VPromise 200 Fulfilled (VStr "<span> [One] [Two] </span>")).
Proof. reflexivity. Qed.

(** A rejected child rejects the whole group, and the combiner is not
    called. *)
Example render_rejected_sibling :
  let failing : component := fun _ => Return (VPromise 50 Rejected (VStr "boom")) in
  let d :=
    DNode (NTag "span") []
      [DNode (NComponent Async) [("delay", JustString "200")] [DStr "One"];
       DNode (NComponent failing) [] []] in
  renderToText d [] = Return (VPromise 50 Rejected (VStr "boom")).
Proof. reflexivity. Qed.

Lemma renderChildren_waits_in_order_witness :
  renderChildren
    [DNode (NComponent Async) [("delay", JustString "200")] [DStr "One"];
     DStr "-";
     DNode (NComponent Async) [("delay", JustString "100")] [DStr "Two"]]
    [] textRenderers
  = Return (VPromise 200 Fulfilled (VStr "[One]-[Two]")).
Proof.
  destruct (renderChildren_waits_in_order (NTag "span") []
              [DNode (NComponent Async) [("delay", JustString "200")] [DStr "One"];
               DStr "-";
               DNode (NComponent Async) [("delay", JustString "100")] [DStr "Two"]]
              [] textRenderers
              [VPromise 200 Fulfilled (VStr "[One]"); VStr "-";
               VPromise 100 Fulfilled (VStr "[Two]")])
    as (_ & Hasync & _).
  - repeat constructor.
  - destruct (Hasync eq_refl) as (p & Hp & _ & Hfulfil).
    rewrite Hp, (Hfulfil eq_refl). reflexivity.
Defined.

Lemma parseJSX_fragment_wrapper_witness :
  let wrapperNode :=
    Element "DocumentFragment" "DocumentFragment" []
      [Element "Bold" "Bold" [] [Text "[[[0]]]"];
       Element "Bold" "Bold" [] [Text "[[[1]]]"]] in
  let parser :=
    parserOf
      "<DocumentFragment><Bold>[[[0]]]</Bold><Bold>[[[1]]]</Bold></DocumentFragment>"
      wrapperNode in
  parseJSX {[ "Bold" := NComponent Bold ]} parser " <Bold>[[[0]]]</Bold><Bold>[[[1]]]</Bold> " ∅
  = Return (DNode (NComponent DocumentFragment) []
              [DNode (NComponent Bold) [] [DNum 0];
               DNode (NComponent Bold) [] [DNum 1]]).
Proof.
  intros wrapperNode parser.
  destruct (parseJSX_fragment_wrapper {[ "Bold" := NComponent Bold ]} parser
              " <Bold>[[[0]]]</Bold><Bold>[[[1]]]</Bold> " "DocumentFragment" ∅ []
              [Element "Bold" "Bold" [] [Text "[[[0]]]"];
               Element "Bold" "Bold" [] [Text "[[[1]]]"]])
    as [Hroot _].
  rewrite Hroot; reflexivity.
Defined.

(** The repository's test "can handle multiple top-level elements". *)
Example render_multiple_roots :
  renderToText
    (DNode (NComponent DocumentFragment) []
       [DNode (NComponent Bold) [] [DNum 0]; DNode (NComponent Bold) [] [DNum 1]])
    [VStr "One"; VStr "Two"]
  = Return (VStr "<b>One</b><b>Two</b>").
Proof. reflexivity. Qed.

Lemma parseAndCache_failure_not_stored_witness :
  let strings := {| identity := 1; segments := ["<Foo>"; "</Foo>"] |} in
  let parser :=
    parserOf "<DocumentFragment><Foo>[[[0]]]</Foo></DocumentFragment>"
      (Element "DocumentFragment" "DocumentFragment" []
         [Element "Foo" "Foo" [] [Text "[[[0]]]"]]) in
  parseAndCache ∅ parser strings ∅ ∅
  = (Throw (VStr ("Couldn't find definition for " +:+ Str.quote +:+ "Foo"
                  +:+ Str.quote +:+ ".")), ∅).
Proof.
  intros strings parser.
  apply (parseAndCache_failure_not_stored ∅ parser strings ∅ ∅); [reflexivity | exact I].
Defined.

(** Once the class map knows the name, the same strings parse and the tree
    is stored. *)
Example parseAndCache_after_failure :
  let strings := {| identity := 1; segments := ["<Foo>"; "</Foo>"] |} in
  let parser :=
    parserOf "<DocumentFragment><Foo>[[[0]]]</Foo></DocumentFragment>"
      (Element "DocumentFragment" "DocumentFragment" []
         [Element "Foo" "Foo" [] [Text "[[[0]]]"]]) in
  let failed := parseAndCache ∅ parser strings ∅ ∅ in
  let retried := parseAndCache ∅ parser strings {[ "Foo" := Bold ]} (snd failed) in
  fst retried = Return (DNode (NComponent Bold) [] [DNum 0])
  /\ snd retried !! 1%positive = Some (DNode (NComponent Bold) [] [DNum 0]).
Proof. split; reflexivity. Qed.

(** The repository's test "parses sequences with single substitution". *)
Example parse_single_substitution :
  let parser :=
    parserOf "<DocumentFragment><div>[[[0]]]</div></DocumentFragment>"
      (Element "DocumentFragment" "DocumentFragment" []
         [Element "div" "div" [] [Text "[[[0]]]"]]) in
  parse ∅ parser ["<div>"; "</div>"] ∅ = Return (DNode (NTag "div") [] [DNum 0]).
Proof. reflexivity. Qed.

(** A template that is only substitutions parses to an array of parts,
    which [render] cannot take for a triple. *)
Example parse_only_substitutions :
  let parser :=
    parserOf "<DocumentFragment>[[[0]]][[[1]]]</DocumentFragment>"
      (Element "DocumentFragment" "DocumentFragment" [] [Text "[[[0]]][[[1]]]"]) in
  parse ∅ parser [""; ""; ""] ∅ = Return (DParts [PNum 0; PNum 1])
  /\ renderToText (DParts [PNum 0; PNum 1]) [VNum 0; VNum 1] = Throw VTypeError.
Proof. split; reflexivity. Qed.

(* ================================================================== *)
(** * Further properties of the marker codec *)
(* ================================================================== *)

Lemma rev_onto_append (s acc t : string) :
  Str.rev_onto s acc +:+ t = Str.rev_onto s (acc +:+ t).
Proof. revert acc. induction s as [|c s IH]; intros acc; simpl; [reflexivity | apply IH]. Qed.

Lemma rev_onto_rev (s acc : string) : Str.rev_onto s acc = Str.rev s +:+ acc.
Proof. unfold Str.rev. now rewrite rev_onto_append. Qed.

Lemma rev_cons (c : ascii) (s : string) : Str.rev (String c s) = Str.rev s +:+ String c "".
Proof. unfold Str.rev at 1. simpl. apply rev_onto_rev. Qed.

Lemma append_nil_r (s : string) : s +:+ "" = s.
Proof.
  induction s as [|c s IH]; [reflexivity|].
  change (String c s +:+ "") with (String c (s +:+ "")). now rewrite IH.
Qed.

Lemma append_assoc (a b c : string) : (a +:+ b) +:+ c = a +:+ b +:+ c.
Proof.
  induction a as [|x a IH]; [reflexivity|].
  change ((String x a +:+ b) +:+ c) with (String x ((a +:+ b) +:+ c)).
  now rewrite IH.
Qed.

Lemma rev_append (a b : string) : Str.rev (a +:+ b) = Str.rev b +:+ Str.rev a.
Proof.
  induction a as [|c a IH].
  - change ("" +:+ b) with b. change (Str.rev "") with "".
    symmetry. apply append_nil_r.
  - change (String c a +:+ b) with (String c (a +:+ b)).
    now rewrite !rev_cons, IH, append_assoc.
Qed.

Lemma rev_involutive (s : string) : Str.rev (Str.rev s) = s.
Proof.
  induction s as [|c s IH]; [reflexivity|].
  now rewrite rev_cons, rev_append, IH.
Qed.

Lemma takeDigits_spec (s ds rest : string) :
  takeDigits s = (ds, rest) -> s = ds +:+ rest /\ Str.all_digits ds = true.
Proof.
  revert ds rest. induction s as [|c s IH]; simpl; intros ds rest H.
  - injection H as <- <-. now split.
  - destruct (Str.is_digit c) eqn:Hc.
    + destruct (takeDigits s) as [ds' rest'] eqn:Ht. injection H as <- <-.
      destruct (IH ds' rest' eq_refl) as [-> Hds]. simpl. now rewrite Hc, Hds.
    + injection H as <- <-. now split.
Qed.

Lemma matchMarker_sound (s ds rest : string) :
  matchMarker s = Some (ds, rest) ->
  s = "[[[" +:+ ds +:+ "]]]" +:+ rest /\ ds <> "" /\ Str.all_digits ds = true.
Proof.
  unfold matchMarker. intros H.
  destruct s as [|c1 [|c2 [|c3 s1]]]; try discriminate H.
  - destruct (Ascii.eqb_spec c1 "["%char) as [->|Hne]; [discriminate H|].
    revert H. destruct c1 as [[] [] [] [] [] [] [] []]; discriminate.
  - revert H. destruct c1 as [[] [] [] [] [] [] [] []]; try discriminate;
      destruct c2 as [[] [] [] [] [] [] [] []]; discriminate.
  - assert (Hc : c1 = "["%char /\ c2 = "["%char /\ c3 = "["%char).
    { revert H. destruct c1 as [[] [] [] [] [] [] [] []]; try discriminate;
        destruct c2 as [[] [] [] [] [] [] [] []]; try discriminate;
        destruct c3 as [[] [] [] [] [] [] [] []]; try discriminate; auto. }
    destruct Hc as (-> & -> & ->).
    destruct (takeDigits s1) as [ds' rest'] eqn:Ht.
    destruct (takeDigits_spec _ _ _ Ht) as [-> Hds].
    destruct ds' as [|d ds']; [discriminate H|].
    destruct rest' as [|r1 [|r2 [|r3 rest']]]; try discriminate H.
    + revert H. destruct r1 as [[] [] [] [] [] [] [] []]; discriminate.
    + revert H. destruct r1 as [[] [] [] [] [] [] [] []]; try discriminate;
        destruct r2 as [[] [] [] [] [] [] [] []]; discriminate.
    + assert (Hr : r1 = "]"%char /\ r2 = "]"%char /\ r3 = "]"%char
                   /\ ds = String d ds' /\ rest = rest').
      { revert H. destruct r1 as [[] [] [] [] [] [] [] []]; try discriminate;
          destruct r2 as [[] [] [] [] [] [] [] []]; try discriminate;
          destruct r3 as [[] [] [] [] [] [] [] []]; try discriminate.
        intros [= <- <-]. auto. }
      destruct Hr as (-> & -> & -> & -> & ->).
      split; [reflexivity|]. split; [discriminate | exact Hds].
Qed.

Lemma splitFrom_skip (pre s lit : string) :
  splitFrom (pre +:+ s) (String.length pre) lit = splitFrom s 0 lit.
Proof.
  induction pre as [|c pre IH]; [|exact IH].
  change ("" +:+ s) with s. reflexivity.
Qed.

Lemma splitFrom_match (s ds rest lit : string) :
  matchMarker s = Some (ds, rest) ->
  splitFrom s 0 lit = Str.rev lit :: ds :: splitFrom rest 0 "".
Proof.
  intros Hm. destruct (matchMarker_sound s ds rest Hm) as (Hs & _ & _).
  rewrite Hs in Hm |- *.
  change ("[[[" +:+ ds +:+ "]]]" +:+ rest)
    with (String "[" ("[[" +:+ ds +:+ "]]]" +:+ rest)) in *.
  cbn [splitFrom]. rewrite Hm. do 2 f_equal.
  replace ("[[" +:+ ds +:+ "]]]" +:+ rest) with (("[[" +:+ ds +:+ "]]]") +:+ rest)
    by (now rewrite !append_assoc).
  replace (5 + String.length ds) with (String.length ("[[" +:+ ds +:+ "]]]")).
  - apply splitFrom_skip.
  - rewrite !append_length. simpl. lia.
Qed.

Lemma splitFrom_no_match (c : ascii) (s lit : string) :
  matchMarker (String c s) = None ->
  splitFrom (String c s) 0 lit = splitFrom s 0 (String c lit).
Proof. intros Hm. cbn [splitFrom]. now rewrite Hm. Qed.

Lemma splitFrom_structure (n : nat) :
  forall s lit, String.length s <= n ->
    alternates (splitFrom s 0 lit)
    /\ reassemble (splitFrom s 0 lit) = Str.rev lit +:+ s.
Proof.
  induction n as [|n IH]; intros s lit Hlen.
  - destruct s; [|simpl in Hlen; lia]. simpl. now rewrite append_nil_r.
  - destruct s as [|c s]; [simpl; now rewrite append_nil_r|].
    destruct (matchMarker (String c s)) as [[ds rest]|] eqn:Hm.
    + rewrite (splitFrom_match _ _ _ _ Hm).
      destruct (matchMarker_sound _ _ _ Hm) as (Hs & Hne & Hds).
      assert (Hrest : String.length rest <= n).
      { apply (f_equal String.length) in Hs. rewrite !append_length in Hs.
        simpl in Hs, Hlen. lia. }
      destruct (IH rest "" Hrest) as [Halt Hre].
      split.
      * cbn [alternates]. auto.
      * cbn [reassemble]. rewrite Hre, Hs. reflexivity.
    + rewrite (splitFrom_no_match _ _ _ Hm).
      assert (Hs : String.length s <= n) by (simpl in Hlen; lia).
      destruct (IH s (String c lit) Hs) as [Halt Hre].
      split; [exact Halt|].
      rewrite Hre, rev_cons, append_assoc. reflexivity.
Qed.

Lemma alternates_odd (parts : list string) :
  alternates parts -> Nat.odd (length parts) = true.
Proof.
  assert (H : forall n parts, length parts <= n ->
                alternates parts -> Nat.odd (length parts) = true).
  { clear parts. induction n as [|n IH]; intros parts Hlen Halt.
    - destruct parts; [destruct Halt | simpl in Hlen; lia].
    - destruct parts as [|lit [|ds rest]]; [destruct Halt | reflexivity |].
      destruct Halt as (_ & _ & Halt). simpl in Hlen.
      change (length (lit :: ds :: rest)) with (S (S (length rest))).
      rewrite Nat.odd_succ_succ. apply IH; [lia | exact Halt]. }
  apply (H (length parts)). lia.
Qed.

Lemma splitMarkers_parts_alternate (s : string) :
  alternates (splitMarkers s) /\ Nat.odd (length (splitMarkers s)) = true.
Proof.
  destruct (splitFrom_structure (String.length s) s "" (le_n _)) as [Halt _].
  split; [exact Halt | apply alternates_odd, Halt].
Qed.

(** X1. Splitting a text at its markers loses nothing: the result has an
    odd number of parts, a literal first and then pairs of a non-empty run
    of digits and a literal, and writing each run of digits back between
    three opening and three closing brackets gives the text again. *)
Theorem splitMarkers_round_trip (s : string) :
  alternates (splitMarkers s)
  /\ Nat.odd (length (splitMarkers s)) = true
  /\ reassemble (splitMarkers s) = s.
Proof.
  destruct (splitFrom_structure (String.length s) s "" (le_n _)) as [Halt Hre].
  split; [exact Halt|]. split; [apply alternates_odd, Halt | exact Hre].
Qed.

(* ------------------------------------------------------------------ *)
(** ** White space *)

Lemma trimStart_allSpace (s : string) : allSpace s = true -> Str.trimStart s = "".
Proof.
  induction s as [|c s IH]; simpl; [reflexivity|].
  intros H. apply andb_true_iff in H as [Hc Hs]. rewrite Hc. auto.
Qed.

Lemma trimStart_no_space (s : string) : Str.startsWithSpace (Str.trimStart s) = false.
Proof.
  induction s as [|c s IH]; simpl; [reflexivity|].
  destruct (Str.is_space c) eqn:Hc; [exact IH | simpl; exact Hc].
Qed.

Lemma trimStart_split (s : string) :
  exists w, s = w +:+ Str.trimStart s /\ allSpace w = true.
Proof.
  induction s as [|c s IH]; simpl.
  - exists "". now split.
  - destruct (Str.is_space c) eqn:Hc.
    + destruct IH as (w & Hs & Hw). exists (String c w). split.
      * change (String c w +:+ Str.trimStart s) with (String c (w +:+ Str.trimStart s)).
        now rewrite <- Hs.
      * simpl. now rewrite Hc, Hw.
    + exists "". now split.
Qed.

Lemma trimStart_prefix (w x : string) :
  allSpace w = true -> Str.startsWithSpace x = false -> Str.trimStart (w +:+ x) = x.
Proof.
  intros Hw Hx. induction w as [|c w IH].
  - change ("" +:+ x) with x. destruct x as [|d x]; [reflexivity|].
    simpl in Hx |- *. now rewrite Hx.
  - simpl in Hw. apply andb_true_iff in Hw as [Hc Hw].
    change (String c w +:+ x) with (String c (w +:+ x)). simpl. rewrite Hc. auto.
Qed.

Lemma allSpace_rev (s : string) : allSpace (Str.rev s) = allSpace s.
Proof.
  assert (Happ : forall a b, allSpace (a +:+ b) = allSpace a && allSpace b).
  { induction a as [|c a IH]; intros b; [reflexivity|].
    change (String c a +:+ b) with (String c (a +:+ b)). simpl.
    now rewrite IH, andb_assoc. }
  induction s as [|c s IH]; [reflexivity|].
  rewrite rev_cons, Happ, IH. simpl. rewrite andb_true_r. apply andb_comm.
Qed.

Lemma startsWithSpace_append (a b : string) :
  a <> "" -> Str.startsWithSpace (a +:+ b) = Str.startsWithSpace a.
Proof. destruct a; [congruence | reflexivity]. Qed.

Lemma rev_nonempty (s : string) : s <> "" -> Str.rev s <> "".
Proof.
  intros Hs Hr. apply Hs. rewrite <- (rev_involutive s), Hr. reflexivity.
Qed.

(** What [trimEnd] removes is white space, and what it keeps does not end
    with white space. *)
Lemma trimEnd_split (s : string) :
  exists w, s = Str.trimEnd s +:+ w /\ allSpace w = true.
Proof.
  destruct (trimStart_split (Str.rev s)) as (w & Hs & Hw).
  exists (Str.rev w). split; [|now rewrite allSpace_rev].
  unfold Str.trimEnd. rewrite <- rev_append, <- Hs. symmetry. apply rev_involutive.
Qed.

Lemma trimEnd_no_space (s : string) : Str.endsWithSpace (Str.trimEnd s) = false.
Proof.
  unfold Str.endsWithSpace, Str.trimEnd. rewrite rev_involutive.
  apply trimStart_no_space.
Qed.

Lemma trimEnd_keeps_start (s : string) :
  Str.startsWithSpace s = false -> Str.startsWithSpace (Str.trimEnd s) = false.
Proof.
  intros Hs. destruct (trimEnd_split s) as (w & Heq & _).
  destruct (Str.trimEnd s) as [|c t] eqn:E; [reflexivity|].
  rewrite Heq in Hs. exact Hs.
Qed.

Lemma trim_no_space (s : string) :
  Str.startsWithSpace (Str.trim s) = false /\ Str.endsWithSpace (Str.trim s) = false.
Proof.
  unfold Str.trim. split.
  - apply trimEnd_keeps_start, trimStart_no_space.
  - apply trimEnd_no_space.
Qed.

Lemma trimEnd_suffix (x w : string) :
  allSpace w = true -> Str.endsWithSpace x = false -> Str.trimEnd (x +:+ w) = x.
Proof.
  intros Hw Hx. unfold Str.trimEnd. rewrite rev_append, trimStart_prefix.
  - apply rev_involutive.
  - now rewrite allSpace_rev.
  - exact Hx.
Qed.

Lemma trim_fixed (s : string) :
  Str.startsWithSpace s = false -> Str.endsWithSpace s = false -> Str.trim s = s.
Proof.
  intros Hl Ht. unfold Str.trim.
  assert (Hs : Str.trimStart s = s).
  { destruct s as [|c s]; [reflexivity|]. simpl in *. now rewrite Hl. }
  rewrite Hs. rewrite <- (append_nil_r s) at 1. now apply trimEnd_suffix.
Qed.

Lemma trim_blank (s : string) : allSpace s = true -> Str.trim s = "".
Proof. intros H. unfold Str.trim. now rewrite (trimStart_allSpace s H). Qed.

Lemma collapseWhitespace_fixed (s : string) :
  s <> "" -> Str.startsWithSpace s = false -> Str.endsWithSpace s = false ->
  collapseWhitespace s = s.
Proof.
  intros Hne Hl Ht. unfold collapseWhitespace.
  rewrite (trim_fixed s Hl Ht), Hl, Ht.
  destruct s; [congruence|]. simpl. now rewrite append_nil_r.
Qed.

Lemma collapseWhitespace_of_blank (s : string) :
  allSpace s = true -> collapseWhitespace s = " ".
Proof.
  intros H. unfold collapseWhitespace. now rewrite (trim_blank s H).
Qed.

(** X3. A non-empty text with no white space at either end is left as it
    is, whatever white space it has inside. *)
Theorem collapseWhitespace_keeps_inner (s : string) :
  s <> "" -> Str.startsWithSpace s = false -> Str.endsWithSpace s = false ->
  collapseWhitespace s = s.
Proof.
  intros Hne Hstart Hend. unfold collapseWhitespace.
  rewrite (trim_fixed s Hstart Hend), Hstart, Hend.
  destruct s as [|c s]; [congruence|].
  cbn [String.length Nat.eqb]. change ("" +:+ String c s +:+ "") with (String c s +:+ "").
  apply append_nil_r.
Qed.

Lemma collapseWhitespace_keeps_inner_witness :
  collapseWhitespace "Hello,   world" = "Hello,   world".
Proof.
  apply collapseWhitespace_keeps_inner; [discriminate | reflexivity | reflexivity].
Defined.

Lemma collapseWhitespace_parts (s : string) :
  (allSpace s = true /\ collapseWhitespace s = " ")
  \/ (exists t, t <> "" /\ Str.startsWithSpace t = false
                /\ Str.endsWithSpace t = false /\ Str.trim s = t
                /\ collapseWhitespace s
                   = (if Str.startsWithSpace s then " " else "") +:+ t
                     +:+ (if Str.endsWithSpace s then " " else "")).
Proof.
  unfold collapseWhitespace.
  destruct (Nat.eqb (String.length (Str.trim s)) 0) eqn:E.
  - left. split; [|reflexivity].
    assert (Ht : Str.trim s = "") by (destruct (Str.trim s); [reflexivity | discriminate]).
    unfold Str.trim in Ht.
    destruct (trimEnd_split (Str.trimStart s)) as (w & Hw & Hall).
    rewrite Ht in Hw. change ("" +:+ w) with w in Hw.
    destruct (trimStart_split s) as (w' & Hs & Hall').
    rewrite Hs, Hw.
    clear - Hall Hall'. induction w' as [|c w' IH]; [exact Hall|].
    simpl in Hall'. apply andb_true_iff in Hall' as [Hc Hw'].
    change (String c w' +:+ w) with (String c (w' +:+ w)). simpl.
    rewrite Hc. auto.
  - right. exists (Str.trim s). destruct (trim_no_space s) as [Hl Ht].
    repeat split; auto. now apply length_zero_empty.
Qed.

(** X4. Collapsing is idempotent: a text that has been collapsed does not
    change when it is collapsed again. *)
Theorem collapseWhitespace_idempotent (s : string) :
  collapseWhitespace (collapseWhitespace s) = collapseWhitespace s.
Proof.
  destruct (collapseWhitespace_parts s) as [[_ ->]|(t & Hne & Hl & Ht & _ & ->)];
    [reflexivity|].
  set (L := if Str.startsWithSpace s then " " else "").
  set (T := if Str.endsWithSpace s then " " else "").
  assert (HL : allSpace L = true) by (unfold L; destruct (Str.startsWithSpace s); reflexivity).
  assert (HT : allSpace T = true) by (unfold T; destruct (Str.endsWithSpace s); reflexivity).
  assert (Hstart : Str.startsWithSpace (L +:+ t +:+ T) = Str.startsWithSpace s).
  { unfold L. destruct (Str.startsWithSpace s); [reflexivity|].
    change ("" +:+ t +:+ T) with (t +:+ T). now rewrite startsWithSpace_append. }
  assert (Hend : Str.endsWithSpace (L +:+ t +:+ T) = Str.endsWithSpace s).
  { unfold Str.endsWithSpace at 1. rewrite !rev_append. unfold T.
    destruct (Str.endsWithSpace s); [reflexivity|].
    change (Str.rev "") with "". change ("" +:+ Str.rev t) with (Str.rev t).
    rewrite startsWithSpace_append by (now apply rev_nonempty). exact Ht. }
  assert (Htrim : Str.trim (L +:+ t +:+ T) = t).
  { unfold Str.trim. rewrite trimStart_prefix.
    - now apply trimEnd_suffix.
    - exact HL.
    - now rewrite startsWithSpace_append. }
  unfold collapseWhitespace at 1. rewrite Htrim, Hstart, Hend.
  destruct t; [congruence|]. reflexivity.
Qed.

(* ------------------------------------------------------------------ *)
(** ** Decoding *)

(** X2. A text collapses to a single space exactly when it is made of
    white space only; the empty text is such a text. *)
Theorem collapseWhitespace_blank (s : string) :
  collapseWhitespace s = " " <-> allSpace s = true.
Proof.
  split; [|apply collapseWhitespace_of_blank].
  destruct (collapseWhitespace_parts s) as [[H _]|(t & Hne & Hl & _ & _ & ->)];
    [auto|].
  destruct t as [|c t]; [congruence|]. simpl in Hl.
  destruct (Str.startsWithSpace s); simpl; intros H.
  - discriminate H.
  - injection H as -> _. discriminate Hl.
Qed.

Lemma collapseWhitespace_blank_witness :
  collapseWhitespace (String (ascii_of_nat 10) (String (ascii_of_nat 9) "  ")) = " ".
Proof. apply (proj2 (collapseWhitespace_blank _)). reflexivity. Defined.

Lemma noBracket_append (a b : string) :
  noBracket (a +:+ b) = noBracket a && noBracket b.
Proof.
  induction a as [|c a IH]; [reflexivity|].
  change (String c a +:+ b) with (String c (a +:+ b)). simpl.
  now rewrite IH, andb_assoc.
Qed.

Lemma noBracket_rev (s : string) : noBracket (Str.rev s) = noBracket s.
Proof.
  induction s as [|c s IH]; [reflexivity|].
  rewrite rev_cons, noBracket_append, IH. simpl. rewrite andb_true_r. apply andb_comm.
Qed.

Lemma noBracket_trimStart (s : string) :
  noBracket s = true -> noBracket (Str.trimStart s) = true.
Proof.
  destruct (trimStart_split s) as (w & Hs & _). intros H.
  rewrite Hs, noBracket_append in H. now apply andb_true_iff in H as [_ H].
Qed.

Lemma noBracket_trim (s : string) : noBracket s = true -> noBracket (Str.trim s) = true.
Proof.
  intros H. unfold Str.trim, Str.trimEnd.
  rewrite noBracket_rev. apply noBracket_trimStart.
  rewrite noBracket_rev. now apply noBracket_trimStart.
Qed.

Lemma noBracket_collapseWhitespace (s : string) :
  noBracket s = true -> noBracket (collapseWhitespace s) = true.
Proof.
  intros H. unfold collapseWhitespace.
  destruct (Nat.eqb _ 0); [reflexivity|].
  rewrite !noBracket_append, (noBracket_trim s H).
  destruct (Str.startsWithSpace s), (Str.endsWithSpace s); reflexivity.
Qed.

Lemma matchMarker_other (c : ascii) (s : string) :
  Ascii.eqb c "[" = false -> matchMarker (String c s) = None.
Proof.
  destruct c as [[] [] [] [] [] [] [] []]; intros H;
    first [discriminate H | reflexivity].
Qed.

(** Bracket-free text in front of [s] joins the literal being read. *)
Lemma splitFrom_literal (a s lit : string) :
  noBracket a = true ->
  splitFrom (a +:+ s) 0 lit = splitFrom s 0 (Str.rev_onto a lit).
Proof.
  revert lit. induction a as [|c a IH]; intros lit Ha; [reflexivity|].
  simpl in Ha. apply andb_true_iff in Ha as [Hc Ha].
  apply negb_true_iff in Hc.
  change (String c a +:+ s) with (String c (a +:+ s)).
  rewrite splitFrom_no_match by (now apply matchMarker_other).
  now rewrite IH.
Qed.

Lemma splitMarkers_noBracket (s : string) : noBracket s = true -> splitMarkers s = [s].
Proof.
  intros H. unfold splitMarkers.
  rewrite <- (append_nil_r s) at 1. rewrite splitFrom_literal by exact H.
  simpl. f_equal. apply rev_involutive.
Qed.


(** X5. A text without an opening square bracket holds no marker:
    [transformText] returns it as one string, with its white space
    collapsed. *)
Theorem transformText_no_bracket (text : string) :
  noBracket text = true -> transformText text = JustString (collapseWhitespace text).
Proof.
  intros Hfree.
  pose proof (noBracket_collapseWhitespace text Hfree) as Hcollapsed.
  unfold transformText.
  rewrite (splitMarkers_noBracket (collapseWhitespace text) Hcollapsed).
  reflexivity.
Qed.

Lemma transformText_no_bracket_witness :
  transformText "  a ]]] b  " = JustString " a ]]] b ".
Proof. apply transformText_no_bracket. reflexivity. Defined.

(* ------------------------------------------------------------------ *)
(** ** Decimal indices *)

Lemma parseDigits_digit (c : ascii) (s : string) (acc k : N) :
  Str.is_digit c = true -> N.of_nat (nat_of_ascii c - 48) = k ->
  Str.parseDigits (String c s) acc = Str.parseDigits s (10 * acc + k)%N.
Proof. intros Hc <-. simpl. now rewrite Hc. Qed.

Lemma parseDigits_uint_acc (d : Decimal.uint) (p : positive) :
  Str.parseDigits (NilEmpty.string_of_uint d) (Npos p) = Npos (Pos.of_uint_acc d p).
Proof.
  revert p. induction d as [|d IH|d IH|d IH|d IH|d IH|d IH|d IH|d IH|d IH|d IH];
    intros p; [reflexivity|..];
    cbn [NilEmpty.string_of_uint Pos.of_uint_acc];
    erewrite parseDigits_digit by reflexivity;
    rewrite <- IH; f_equal;
    match goal with
    | |- context [N.of_nat ?t] =>
        let v := eval vm_compute in (N.of_nat t) in change (N.of_nat t) with v
    end; lia.
Qed.

Lemma parseDigits_uint (d : Decimal.uint) :
  Str.parseDigits (NilEmpty.string_of_uint d) 0 = Pos.of_uint d.
Proof.
  induction d as [|d IH|d IH|d IH|d IH|d IH|d IH|d IH|d IH|d IH|d IH];
    [reflexivity|..];
    cbn [NilEmpty.string_of_uint Pos.of_uint];
    erewrite parseDigits_digit by reflexivity;
    first [exact IH | apply parseDigits_uint_acc].
Qed.

Lemma all_digits_uint (d : Decimal.uint) :
  Str.all_digits (NilEmpty.string_of_uint d) = true.
Proof. induction d; simpl; auto. Qed.

Lemma ofNat_digits (n : nat) :
  Str.ofNat n <> "" /\ Str.all_digits (Str.ofNat n) = true
  /\ Str.parseInt (Str.ofNat n) = N.of_nat n.
Proof.
  unfold Str.ofNat, Str.ofZ, Str.parseInt.
  destruct n as [|n]; [repeat split; discriminate|].
  change (Z.of_nat (S n)) with (Z.pos (Pos.of_succ_nat n)).
  cbn [Z.to_int NilZero.string_of_int].
  pose proof (DecimalPos.Unsigned.of_to (Pos.of_succ_nat n)) as Hof.
  destruct (Pos.to_uint (Pos.of_succ_nat n)) as [|d|d|d|d|d|d|d|d|d|d] eqn:E;
    [discriminate Hof|..];
    (split; [discriminate|]); (split; [apply all_digits_uint|]);
    unfold NilZero.string_of_uint; rewrite parseDigits_uint, Hof; reflexivity.
Qed.

Lemma marker_fixed (i : nat) : collapseWhitespace (marker i) = marker i.
Proof.
  apply collapseWhitespace_fixed; [discriminate | reflexivity |].
  unfold Str.endsWithSpace, marker.
  change ("[[[" +:+ Str.ofNat i +:+ "]]]") with ("[[[" +:+ (Str.ofNat i +:+ "]]]")).
  now rewrite !rev_append.
Qed.

(** X6. Encoding and decoding agree.  The marker that [parse] writes for
    the index [i] after a bracket-free literal is found again by the split,
    which yields the literal, the decimal digits of [i] and then the parts
    of what follows; these digits read back as [i]; and a text that is
    that marker alone decodes to the bare index [i]. *)
Theorem marker_round_trip (i : nat) (literal following : string) :
  noBracket literal = true ->
  splitMarkers (literal +:+ marker i +:+ following)
  = literal :: Str.ofNat i :: splitMarkers following
  /\ Str.parseInt (Str.ofNat i) = N.of_nat i
  /\ transformText (marker i) = JustIndex (N.of_nat i).
Proof.
  intros Hlit. destruct (ofNat_digits i) as (Hne & Hds & Hparse).
  split; [|split; [exact Hparse|]].
  - unfold splitMarkers. rewrite splitFrom_literal by exact Hlit.
    unfold marker. rewrite !append_assoc.
    rewrite (splitFrom_match _ (Str.ofNat i) following)
      by (now apply matchMarker_token).
    f_equal. apply rev_involutive.
  - unfold transformText. rewrite marker_fixed. unfold marker.
    rewrite splitMarkers_token by assumption.
    cbn. rewrite Hparse. destruct (Str.ofNat i); [congruence | reflexivity].
Qed.

Lemma marker_round_trip_witness :
  splitMarkers ("<b>" +:+ marker 12 +:+ "</b>") = ["<b>"; "12"; "</b>"].
Proof.
  apply (proj1 (marker_round_trip 12 "<b>" "</b>" eq_refl)).
Defined.

(* ------------------------------------------------------------------ *)
(** ** The shape of a decoded array *)

Lemma pairs_ind {A : Type} (P : list A -> Prop) :
  P [] -> (forall x, P [x]) -> (forall x y l, P l -> P (x :: y :: l)) ->
  forall l, P l.
Proof.
  intros Hnil Hone Hstep.
  assert (H : forall l, P l /\ forall x, P (x :: l)).
  { induction l as [|y l [IH1 IH2]]; split; auto. }
  intros l. apply H.
Qed.

Lemma imap_itemsOfParts (parts : list string) :
  imap (fun index part =>
          if Nat.eqb (index mod 2) 0 then PStr part
          else PNum (Str.parseInt part)) parts
  = itemsOfParts parts.
Proof.
  induction parts as [| |lit ds rest IH] using pairs_ind; [reflexivity..|].
  rewrite !imap_cons. cbn [itemsOfParts]. do 2 f_equal.
  rewrite <- IH. apply imap_ext. intros j x _. cbn [compose].
  change (S (S j)) with (2 + j). now rewrite Nat.Div0.add_mod, Nat.Div0.mod_same,
    Nat.add_0_l, Nat.Div0.mod_mod.
Qed.

Lemma literalsApart_filter (parts : list string) :
  literalsApart (List.filter nonEmptyItem (itemsOfParts parts)).
Proof.
  induction parts as [| |lit ds rest IH] using pairs_ind.
  - exact I.
  - simpl. destruct (Nat.ltb 0 (String.length x)); exact I.
  - cbn [itemsOfParts List.filter nonEmptyItem].
    destruct (Nat.ltb 0 (String.length lit)); exact IH.
Qed.

Lemma filter_has_index (parts : list string) :
  3 <= length parts ->
  exists n, In (PNum n) (List.filter nonEmptyItem (itemsOfParts parts)).
Proof.
  destruct parts as [|lit [|ds rest]]; simpl; try lia. intros _.
  exists (Str.parseInt ds).
  destruct (Nat.ltb 0 (String.length lit)); simpl; auto.
Qed.

(** X7. When [transformText] returns an array, the array has at least two
    items, at least one of them an index, and no two literals stand next
    to each other: literal text between two markers is one string. *)
Theorem transformText_array_shape (text : string) (items : list part) :
  transformText text = Parts items ->
  2 <= length items
  /\ (exists n, In (PNum n) items)
  /\ literalsApart items.
Proof.
  unfold transformText.
  destruct (splitMarkers_parts_alternate (collapseWhitespace text)) as [Halt Hodd].
  destruct (Nat.eqb (length (splitMarkers (collapseWhitespace text))) 1) eqn:Hone;
    [discriminate|].
  rewrite imap_itemsOfParts.
  set (parts := splitMarkers (collapseWhitespace text)) in *.
  assert (Hlen : 3 <= length parts).
  { apply Nat.eqb_neq in Hone. destruct parts as [|a [|b [|c rest]]]; simpl in *;
      try lia; discriminate Hodd. }
  pose proof (literalsApart_filter parts) as Hapart.
  destruct (filter_has_index parts Hlen) as [n Hn].
  destruct (List.filter nonEmptyItem (itemsOfParts parts)) as [|[s|m] [|second rest]] eqn:E;
    intros H; try discriminate H; injection H as <-.
  - destruct Hn.
  - destruct Hn as [Hn|[]]. discriminate Hn.
  - split; [simpl; lia|]. split; [eauto | exact Hapart].
  - split; [simpl; lia|]. split; [eauto | exact Hapart].
Qed.

Lemma transformText_array_shape_witness :
  2 <= length [PNum 0; PStr "foo"; PNum 1]
  /\ (exists n, In (PNum n) [PNum 0; PStr "foo"; PNum 1])
  /\ literalsApart [PNum 0; PStr "foo"; PNum 1].
Proof.
  apply (transformText_array_shape "[[[0]]]foo[[[1]]]"). reflexivity.
Defined.

(* ================================================================== *)
(** * Further properties of the tree transformer *)
(* ================================================================== *)

Lemma node_induction (P : node -> Prop) :
  (forall nodeName localName attributes childNodes,
      Forall P childNodes -> P (Element nodeName localName attributes childNodes)) ->
  (forall data, P (Text data)) ->
  (forall data, P (CDATASection data)) ->
  (forall target data, P (ProcessingInstructionNode target data)) ->
  (forall data, P (Comment data)) ->
  (forall name, P (DocumentTypeNode name)) ->
  forall n, P n.
Proof.
  intros HE HT HC HP HK HD. fix IH 1.
  intros [nodeName localName attributes childNodes|data|data|target data|data|name];
    [|apply HT|apply HC|apply HP|apply HK|apply HD].
  apply HE. induction childNodes as [|child childNodes IHc]; constructor.
  - apply IH.
  - exact IHc.
Qed.

Lemma Obj_keys_set {A : Type} (o : list (string * A)) (key : string) (v : A) :
  Obj.keys (Obj.set o key v)
  = if existsb (String.eqb key) (Obj.keys o) then Obj.keys o else Obj.keys o ++ [key].
Proof.
  induction o as [|[k w] o IH]; [reflexivity|].
  unfold Obj.keys in *. simpl. rewrite (String.eqb_sym key k).
  destruct (String.eqb k key); simpl; [reflexivity|].
  rewrite IH. destruct (existsb (String.eqb key) (map fst o)); reflexivity.
Qed.

Lemma NoDup_snoc {A : Type} (l : list A) (x : A) :
  List.NoDup l -> ~ In x l -> List.NoDup (l ++ [x]).
Proof.
  induction 1 as [|y l Hy Hnd IH]; simpl; intros Hx.
  - constructor; [intros [] | constructor].
  - constructor.
    + rewrite in_app_iff. simpl. intuition congruence.
    + apply IH. tauto.
Qed.

Lemma Obj_set_NoDup {A : Type} (o : list (string * A)) (key : string) (v : A) :
  List.NoDup (Obj.keys o) -> List.NoDup (Obj.keys (Obj.set o key v)).
Proof.
  intros Hnd. rewrite Obj_keys_set.
  destruct (existsb (String.eqb key) (Obj.keys o)) eqn:E; [exact Hnd|].
  apply NoDup_snoc; [exact Hnd|].
  intros Hin. assert (existsb (String.eqb key) (Obj.keys o) = true).
  { apply existsb_exists. exists key. split; [exact Hin | apply String.eqb_refl]. }
  congruence.
Qed.

Lemma fold_set_NoDup {A B : Type} (f : A -> B) (l : list (string * A))
  (o : list (string * B)) :
  List.NoDup (Obj.keys o) ->
  List.NoDup
    (Obj.keys (fold_left (fun o e => Obj.set o (fst e) (f (snd e))) l o)).
Proof.
  revert o. induction l as [|e l IH]; intros o Hnd; [exact Hnd|].
  simpl. apply IH. now apply Obj_set_NoDup.
Qed.

Lemma fold_set_map {A B : Type} (f : A -> B) (l : list (string * A))
  (o : list (string * B)) :
  List.NoDup (Obj.keys o ++ map fst l) ->
  fold_left (fun o e => Obj.set o (fst e) (f (snd e))) l o
  = o ++ map (fun e => (fst e, f (snd e))) l.
Proof.
  revert o. induction l as [|[key v] l IH]; intros o Hnd.
  - simpl. now rewrite app_nil_r.
  - cbn [fold_left map fst snd]. cbn [map fst] in Hnd.
    rewrite Obj_set_fresh.
    + rewrite IH.
      * now rewrite <- app_assoc.
      * unfold Obj.keys in *. rewrite map_app, <- app_assoc. exact Hnd.
    + apply NoDup_remove_2 in Hnd. intros Hin. apply Hnd.
      apply in_or_app. now left.
Qed.

Lemma assignProperty_other {A : Type} (o : list (string * A)) (key : string) (v : A) :
  key <> "__proto__" -> assignProperty o key v = Obj.set o key v.
Proof.
  intros Hkey. unfold assignProperty.
  destruct (String.eqb_spec key "__proto__"); [contradiction | reflexivity].
Qed.

Lemma fold_assign_keys {A B : Type} (f : A -> B) (l : list (string * A))
  (o : list (string * B)) :
  List.NoDup (Obj.keys o) -> ~ In "__proto__" (Obj.keys o) ->
  let result :=
    fold_left (fun o e => assignProperty o (fst e) (f (snd e))) l o in
  List.NoDup (Obj.keys result) /\ ~ In "__proto__" (Obj.keys result).
Proof.
  revert o. induction l as [|[key v] l IH]; intros o Hnd Hfree; [now split|].
  cbn [fold_left fst snd].
  destruct (String.eqb_spec key "__proto__") as [->|Hkey]; [now apply IH|].
  rewrite (assignProperty_other o key (f v) Hkey). apply IH.
  - now apply Obj_set_NoDup.
  - rewrite Obj_keys_set.
    destruct (existsb (String.eqb key) (Obj.keys o)); [exact Hfree|].
    rewrite in_app_iff. simpl. intuition congruence.
Qed.

Lemma fold_assign_map {A B : Type} (f : A -> B) (l : list (string * A))
  (o : list (string * B)) :
  List.NoDup (Obj.keys o ++ map fst l) ->
  fold_left (fun o e => assignProperty o (fst e) (f (snd e))) l o
  = o ++ map (fun e => (fst e, f (snd e)))
           (List.filter (fun e => negb (String.eqb (fst e) "__proto__")) l).
Proof.
  revert o. induction l as [|[key v] l IH]; intros o Hnd.
  - simpl. now rewrite app_nil_r.
  - cbn [fold_left List.filter map fst snd]. cbn [map fst] in Hnd.
    destruct (String.eqb_spec key "__proto__") as [->|Hkey]; cbn [negb].
    + apply IH. now apply NoDup_remove_1 in Hnd.
    + rewrite (assignProperty_other o key (f v) Hkey), Obj_set_fresh.
      * rewrite IH.
        -- cbn [map fst snd]. now rewrite <- app_assoc.
        -- unfold Obj.keys in *. rewrite map_app, <- app_assoc. exact Hnd.
      * apply NoDup_remove_2 in Hnd. intros Hin. apply Hnd.
        apply in_or_app. now left.
Qed.

(** X8. The attribute object that [transformAttributes] builds never has a
    name twice and never the name [__proto__]: an attribute of that name is
    assigned through the inherited setter and leaves no property.  When the
    attributes of the element have distinct names, as XML requires, the
    object holds the others in their order, each with its value decoded by
    [transformText]. *)
Theorem transformAttributes_object (attributes : list (string * string)) :
  List.NoDup (Obj.keys (transformAttributes attributes))
  /\ ~ In "__proto__" (Obj.keys (transformAttributes attributes))
  /\ (List.NoDup (map fst attributes) ->
      transformAttributes attributes
      = map (fun attribute => (fst attribute, transformText (snd attribute)))
          (List.filter
             (fun attribute => negb (String.eqb (fst attribute) "__proto__"))
             attributes)).
Proof.
  split; [|split].
  - apply (fold_assign_keys transformText attributes []); [constructor | intros []].
  - apply (fold_assign_keys transformText attributes []); [constructor | intros []].
  - intros Hnd. apply (fold_assign_map transformText attributes []). exact Hnd.
Qed.

Lemma transformAttributes_object_witness :
  transformAttributes [("class", "[[[0]]] bar"); ("__proto__", "x"); ("id", "y")]
  = [("class", Parts [PNum 0; PStr " bar"]); ("id", JustString "y")].
Proof.
  apply (proj2 (proj2 (transformAttributes_object
                         [("class", "[[[0]]] bar"); ("__proto__", "x"); ("id", "y")]))).
  repeat constructor; simpl; intuition discriminate.
Defined.

Section TransformerPropagation.

Variable global : gmap string name.

Lemma transformNodesFrom_app (before after : list node)
  (classMap : gmap string component) (result : list tree) :
  transformNodesFrom global (before ++ after) classMap result
  = (let! middle := transformNodesFrom global before classMap result in
     transformNodesFrom global after classMap middle).
Proof.
  revert result. induction before as [|n before IH]; intros result; [reflexivity|].
  simpl. destruct (transformNode global n classMap); simpl; [apply IH | reflexivity].
Qed.

Lemma transformNodesFrom_succeeds (nodes : list node)
  (classMap : gmap string component) (result : list tree) :
  Forall (fun n => exists d, transformNode global n classMap = Return d) nodes ->
  exists result', transformNodesFrom global nodes classMap result = Return result'.
Proof.
  intros H. revert result. induction H as [|n nodes [d Hd] _ IH]; intros result.
  - exists result. reflexivity.
  - simpl. rewrite Hd. simpl. apply IH.
Qed.

(** X9. The first child whose transformation throws aborts the whole
    transformation with its exception: [transformNodes] throws it, and so
    does the transformation of an element that has these children and whose
    own name resolves.  No partial tree is returned. *)
Theorem transformNodes_first_failure (before after : list node) (bad : node)
  (classMap : gmap string component) (e : jsval)
  (nodeName : string) (first : ascii) (rest : string)
  (attributes : list (string * string)) :
  Forall (fun n => exists d, transformNode global n classMap = Return d) before ->
  transformNode global bad classMap = Throw e ->
  (if isClassName first then lookupClass global classMap (String first rest)
   else NTag (String first rest)) <> NUndefined ->
  transformNodes global (before ++ bad :: after) classMap = Throw e
  /\ transformNode global
       (Element nodeName (String first rest) attributes (before ++ bad :: after))
       classMap
     = Throw e.
Proof.
  intros Hbefore Hbad Hname.
  assert (Hnodes : transformNodes global (before ++ bad :: after) classMap = Throw e).
  { unfold transformNodes. rewrite transformNodesFrom_app.
    destruct (transformNodesFrom_succeeds before classMap [] Hbefore) as [r ->].
    simpl. now rewrite Hbad. }
  split; [exact Hnodes|].
  rewrite transformNode_element. cbv zeta.
  destruct (if isClassName first then _ else _); [| |congruence|];
    now rewrite Hnodes.
Qed.

Lemma properChild_ofDecoded (text : string) :
  Forall (fun child => properChild child /\ childrenProper child)
    (concatArgument (ofDecoded (transformText text))).
Proof.
  pose proof (transformText_noEmptyLiteral text) as Hne.
  destruct (transformText text) as [s|n|items]; simpl in *.
  - repeat constructor. exact Hne.
  - repeat constructor.
  - induction items as [|[s|n] items IH]; simpl; constructor.
    + split; [|constructor]. simpl. intros ->. apply Hne. now left.
    + apply IH. intros Hin. apply Hne. now right.
    + split; [exact I | constructor].
    + apply IH. intros Hin. apply Hne. now right.
Qed.

(** X10. In every tree that the transformer returns, each child of a
    triple, at any depth, is a non-empty string, a number or a triple:
    the array that a text node decodes to is always spliced into the list
    of children, never nested in it. *)
Theorem transformNode_children_proper (n : node) (classMap : gmap string component)
  (d : tree) :
  transformNode global n classMap = Return d -> childrenProper d.
Proof.
  revert d.
  induction n as [nodeName localName attributes childNodes IH|data|data|target data
                 |data|name] using node_induction; intros d Hd.
  - destruct localName as [|first rest]; [discriminate Hd|].
    rewrite transformNode_element in Hd. cbv zeta in Hd.
    assert (Hkids : forall result result',
      Forall (fun child => properChild child /\ childrenProper child) result ->
      transformNodesFrom global childNodes classMap result = Return result' ->
      Forall (fun child => properChild child /\ childrenProper child) result').
    { clear Hd. induction IH as [|child childNodes Hchild _ IHk];
        intros result result' Hres Hrun.
      - injection Hrun as <-. exact Hres.
      - simpl in Hrun.
        destruct (transformNode global child classMap) as [t|] eqn:Ht;
          [|discriminate Hrun].
        simpl in Hrun. apply (IHk _ _) in Hrun; [exact Hrun|].
        assert (Hnew :
          Forall (fun child => properChild child /\ childrenProper child)
            (if Z.eqb (nodeType child) 3 then concatArgument t else [t])).
        { pose proof (Hchild t eq_refl) as Hproper.
          destruct child as [nn ln attrs kids|data|data|target data|data|name];
            simpl in *.
          - constructor; [|constructor]. split; [|exact Hproper].
            destruct (transformNode_element_is_triple global nn ln attrs kids
                        classMap t [] Ht) as [(nameData & cs & ->) _].
            exact I.
          - injection Ht as <-. apply properChild_ofDecoded.
          - discriminate Ht.
          - injection Ht as <-. repeat constructor.
          - discriminate Ht.
          - injection Ht as <-. repeat constructor. }
        unfold appendTransformed.
        destruct (Z.eqb (nodeType child) 3); apply Forall_app; split; auto. }
    destruct (if isClassName first then _ else _); try discriminate Hd;
      destruct (transformNodes global childNodes classMap) as [cs|] eqn:Hcs;
      try discriminate Hd; injection Hd as <-; constructor;
      apply (Hkids [] cs (List.Forall_nil _) Hcs).
  - injection Hd as <-. destruct (transformText data); constructor.
  - discriminate Hd.
  - injection Hd as <-. repeat constructor.
  - discriminate Hd.
  - injection Hd as <-. repeat constructor.
Qed.

End TransformerPropagation.

Lemma transformNodes_first_failure_witness :
  transformNode ∅
    (Element "div" "div" [] ([Text "a"] ++ Comment " note " :: [Text "b"])) ∅
  = Throw VTypeError.
Proof.
  apply (transformNodes_first_failure ∅ [Text "a"] [Text "b"] (Comment " note ") ∅
           VTypeError "div" "d" "iv" []);
    [repeat constructor; eexists; reflexivity | reflexivity | discriminate].
Defined.

Lemma transformNode_children_proper_witness :
  childrenProper
    (DNode (NTag "div") [] [DNum 0; DStr "foo"; DNum 1; DNode (NTag "b") [] [DStr " "]]).
Proof.
  apply (transformNode_children_proper ∅
           (Element "div" "div" []
              [Text "[[[0]]]foo[[[1]]]"; Element "b" "b" [] [Text "  "]]) ∅).
  reflexivity.
Defined.

(* ================================================================== *)
(** * Further properties of parsing and of the cache *)
(* ================================================================== *)

Section ParsingMore.

Variable global : gmap string name.
Variable parseFromString : string -> completion (option node).

(** X11. When the first child of the wrapper that the parser returns, or
    else the first child of that child, is named [parsererror] and has a
    non-empty text content, [parseJSX] throws that text, whatever the class
    map and the rest of the document. *)
Theorem parseJSX_syntax_error (jsx message : string)
  (classMap : gmap string component) (wrapperNode child errorNode : node) :
  parseFromString ("<DocumentFragment>" +:+ Str.trim jsx +:+ "</DocumentFragment>")
  = Return (Some wrapperNode) ->
  head (getChildNodes wrapperNode) = Some child ->
  errorNode = child
  \/ (getNodeName child <> "parsererror"
      /\ head (getChildNodes child) = Some errorNode) ->
  getNodeName errorNode = "parsererror" ->
  textContent errorNode = Some message ->
  message <> "" ->
  parseJSX global parseFromString jsx classMap = Throw (VStr message).
Proof.
  intros Hparse Hchild Hwhere Hname Htext Hmessage.
  assert (Hfind : findDOMParserError wrapperNode = Some message).
  { unfold findDOMParserError. rewrite Hchild.
    destruct Hwhere as [->|[Hother Hgrand]].
    - unfold isErrorNode. rewrite Hname. simpl. exact Htext.
    - unfold isErrorNode at 1.
      destruct (String.eqb_spec (getNodeName child) "parsererror") as [Heq|_];
        [contradiction|].
      rewrite Hgrand. unfold isErrorNode. rewrite Hname. simpl. exact Htext. }
  unfold parseJSX. rewrite Hparse. simpl. rewrite Hfind.
  destruct message; [congruence | reflexivity].
Qed.

(** The result of [parseAndCache] when the cache has no usable entry. *)
Lemma parseAndCache_parses (strings : templateStrings)
  (classMap : gmap string component) (cache : gmap positive tree) :
  match cache !! identity strings with
  | Some d => truthy d = false
  | None => True
  end ->
  parseAndCache global parseFromString strings classMap cache
  = match parse global parseFromString (segments strings) classMap with
    | Return d => (Return d, <[identity strings := d]> cache)
    | Throw e => (Throw e, cache)
    end.
Proof.
  intros Hmiss. unfold parseAndCache.
  destruct (cache !! identity strings) as [d|]; [|reflexivity].
  now rewrite Hmiss.
Qed.

(** X12. Once a parse has stored a tree that is neither the number 0 nor
    the empty string, every later call with the same identity returns that
    tree and leaves the cache alone, whatever segments and class map it is
    given: nothing is parsed again. *)
Theorem parseAndCache_stored_tree_reused (strings : templateStrings)
  (classMap : gmap string component) (cache : gmap positive tree) (d : tree) :
  match cache !! identity strings with
  | Some old => truthy old = false
  | None => True
  end ->
  parse global parseFromString (segments strings) classMap = Return d ->
  truthy d = true ->
  let stored := <[identity strings := d]> cache in
  parseAndCache global parseFromString strings classMap cache = (Return d, stored)
  /\ forall otherSegments otherClassMap,
       parseAndCache global parseFromString
         {| identity := identity strings; segments := otherSegments |}
         otherClassMap stored
       = (Return d, stored).
Proof.
  intros Hmiss Hparse Htruthy stored. split.
  - rewrite parseAndCache_parses by exact Hmiss. now rewrite Hparse.
  - intros otherSegments otherClassMap. unfold parseAndCache. cbn [identity].
    unfold stored. rewrite lookup_insert_eq, Htruthy. reflexivity.
Qed.

(** X13. A tree that is the number 0 or the empty string is stored but
    never served: the next call with the same identity parses again, and
    returns and stores what that parse gives. *)
Theorem parseAndCache_falsy_tree_reparsed (strings : templateStrings)
  (classMap classMap' : gmap string component) (cache : gmap positive tree)
  (d : tree) :
  match cache !! identity strings with
  | Some old => truthy old = false
  | None => True
  end ->
  parse global parseFromString (segments strings) classMap = Return d ->
  truthy d = false ->
  let stored := <[identity strings := d]> cache in
  parseAndCache global parseFromString strings classMap cache = (Return d, stored)
  /\ parseAndCache global parseFromString strings classMap' stored
     = match parse global parseFromString (segments strings) classMap' with
       | Return d' => (Return d', <[identity strings := d']> cache)
       | Throw e => (Throw e, stored)
       end.
Proof.
  intros Hmiss Hparse Hfalsy stored. split.
  - rewrite parseAndCache_parses by exact Hmiss. now rewrite Hparse.
  - rewrite parseAndCache_parses
      by (unfold stored; rewrite lookup_insert_eq; exact Hfalsy).
    destruct (parse global parseFromString (segments strings) classMap');
      [|reflexivity].
    unfold stored. now rewrite insert_insert_eq.
Qed.

(** X14. [parseAndCache] touches no entry of the cache other than the one
    of the identity it is called with. *)
Theorem parseAndCache_other_entries (strings : templateStrings)
  (classMap : gmap string component) (cache : gmap positive tree)
  (other : positive) :
  other <> identity strings ->
  snd (parseAndCache global parseFromString strings classMap cache) !! other
  = cache !! other.
Proof.
  intros Hother. unfold parseAndCache.
  destruct (cache !! identity strings) as [d|]; [destruct (truthy d); [reflexivity|]|];
    destruct (parse global parseFromString (segments strings) classMap);
    cbn [snd]; try reflexivity; now rewrite lookup_insert_ne.
Qed.

(** X15. A template literal parses its strings on the first call and
    renders the stored tree on the later ones: with a tree that is neither
    0 nor the empty string, the first call of [jsxToTextWith] returns the
    rendering of the tree with its values, and a later call on the
    resulting cache returns the rendering of the same tree with the new
    values, the cache staying as it is.  When the parse throws, the call
    throws the same value and the cache is unchanged. *)
Theorem jsxToTextWith_parses_once (strings : templateStrings)
  (classMap : gmap string component) (cache : gmap positive tree)
  (values values' : list jsval) :
  match cache !! identity strings with
  | Some old => truthy old = false
  | None => True
  end ->
  match parse global parseFromString (segments strings) classMap with
  | Return d =>
      truthy d = true ->
      let stored := <[identity strings := d]> cache in
      jsxToTextWith global parseFromString classMap cache strings values
      = (renderToText d values, stored)
      /\ jsxToTextWith global parseFromString classMap stored strings values'
         = (renderToText d values', stored)
  | Throw e =>
      jsxToTextWith global parseFromString classMap cache strings values
      = (Throw e, cache)
  end.
Proof.
  intros Hmiss. unfold jsxToTextWith.
  rewrite (parseAndCache_parses strings classMap cache Hmiss).
  destruct (parse global parseFromString (segments strings) classMap) as [d|e] eqn:Hparse;
    [|reflexivity].
  intros Htruthy. split; [reflexivity|].
  unfold parseAndCache. rewrite lookup_insert_eq, Htruthy. reflexivity.
Qed.

End ParsingMore.

Lemma parseJSX_syntax_error_witness :
  let errorNode := Element "parsererror" "parsererror" [] [Text "unclosed tag: div"] in
  let parser :=
    parserOf "<DocumentFragment><div></DocumentFragment>"
      (Element "DocumentFragment" "DocumentFragment" [] [errorNode]) in
  parseJSX ∅ parser "<div>" ∅ = Throw (VStr "unclosed tag: div").
Proof.
  intros errorNode parser.
  apply (parseJSX_syntax_error ∅ parser "<div>" "unclosed tag: div" ∅
           (Element "DocumentFragment" "DocumentFragment" [] [errorNode])
           errorNode errorNode);
    [reflexivity | reflexivity | now left | reflexivity | reflexivity | discriminate].
Defined.

Lemma parseAndCache_stored_tree_reused_witness :
  let strings := {| identity := 1; segments := ["<div>"; "</div>"] |} in
  let parser :=
    parserOf "<DocumentFragment><div>[[[0]]]</div></DocumentFragment>"
      (Element "DocumentFragment" "DocumentFragment" []
         [Element "div" "div" [] [Text "[[[0]]]"]]) in
  let d := DNode (NTag "div") [] [DNum 0] in
  parseAndCache ∅ parser strings ∅ ∅ = (Return d, <[1%positive := d]> ∅)
  /\ forall otherSegments otherClassMap,
       parseAndCache ∅ parser {| identity := 1; segments := otherSegments |}
         otherClassMap (<[1%positive := d]> ∅)
       = (Return d, <[1%positive := d]> ∅).
Proof.
  intros strings parser d.
  apply (parseAndCache_stored_tree_reused ∅ parser strings ∅ ∅ d);
    [exact I | reflexivity | reflexivity].
Defined.

Lemma parseAndCache_falsy_tree_reparsed_witness :
  let strings := {| identity := 1; segments := [""; ""] |} in
  let parser :=
    parserOf "<DocumentFragment>[[[0]]]</DocumentFragment>"
      (Element "DocumentFragment" "DocumentFragment" [] [Text "[[[0]]]"]) in
  parseAndCache ∅ parser strings ∅ ∅ = (Return (DNum 0), <[1%positive := DNum 0]> ∅)
  /\ parseAndCache ∅ parser strings ∅ (<[1%positive := DNum 0]> ∅)
     = (Return (DNum 0), <[1%positive := DNum 0]> ∅).
Proof.
  intros strings parser.
  apply (parseAndCache_falsy_tree_reparsed ∅ parser strings ∅ ∅ ∅ (DNum 0));
    [exact I | reflexivity | reflexivity].
Defined.

Lemma parseAndCache_other_entries_witness :
  let strings := {| identity := 1; segments := [""; ""] |} in
  let parser :=
    parserOf "<DocumentFragment>[[[0]]]</DocumentFragment>"
      (Element "DocumentFragment" "DocumentFragment" [] [Text "[[[0]]]"]) in
  snd (parseAndCache ∅ parser strings ∅ (<[2%positive := DStr "kept"]> ∅)) !! 2%positive
  = Some (DStr "kept").
Proof.
  intros strings parser.
  rewrite (parseAndCache_other_entries ∅ parser strings ∅
             (<[2%positive := DStr "kept"]> ∅) 2%positive); [reflexivity | discriminate].
Defined.

Lemma jsxToTextWith_parses_once_witness :
  let strings := {| identity := 1; segments := ["<b>"; "</b>"] |} in
  let parser :=
    parserOf "<DocumentFragment><b>[[[0]]]</b></DocumentFragment>"
      (Element "DocumentFragment" "DocumentFragment" []
         [Element "b" "b" [] [Text "[[[0]]]"]]) in
  let stored := <[1%positive := DNode (NTag "b") [] [DNum 0]]> ∅ in
  jsxToTextWith ∅ parser ∅ ∅ strings [VStr "One"] = (Return (VStr "<b>One</b>"), stored)
  /\ jsxToTextWith ∅ parser ∅ stored strings [VStr "Two"]
     = (Return (VStr "<b>Two</b>"), stored).
Proof.
  intros strings parser stored.
  exact (jsxToTextWith_parses_once ∅ parser strings ∅ ∅ [VStr "One"] [VStr "Two"]
           I eq_refl).
Defined.

(* ================================================================== *)
(** * Further properties of the renderer *)
(* ================================================================== *)

Lemma mapM_app {A B : Type} (f : A -> completion B) (l1 l2 : list A) :
  mapM f (l1 ++ l2)
  = (let! r1 := mapM f l1 in let! r2 := mapM f l2 in Return (r1 ++ r2)).
Proof.
  induction l1 as [|a l1 IH]; simpl.
  - destruct (mapM f l2); reflexivity.
  - destruct (f a); simpl; [|reflexivity]. rewrite IH.
    destruct (mapM f l1); simpl; [|reflexivity].
    destruct (mapM f l2); reflexivity.
Qed.

Lemma renderChildren_rendered (childrenData : list tree) (substitutions : list jsval)
  (R : renderers) (rendered : list jsval) :
  Forall2 (fun child r => render child substitutions R = Return r)
    childrenData rendered ->
  renderChildren childrenData substitutions R
  = combineRendered rendered substitutions R.
Proof.
  intros H. unfold renderChildren. now rewrite (mapM_Forall2 _ _ _ H).
Qed.

Lemma then_promise (t : nat) (how : settlement) (v : jsval)
  (f : jsval -> completion jsval) :
  exists t' how' v', then_ (VPromise t how v) f = VPromise t' how' v'.
Proof.
  destruct how; cbn [then_]; [|eauto].
  destruct (f v) as [[]|]; eauto.
Qed.

(** X16. Asynchrony spreads upwards: when the rendering of one child is a
    promise, the rendering of the triple is a promise too, whatever its
    name and its other children are, as long as no child throws. *)
Theorem render_promise_spreads (nameData : name)
  (attributesData : list (string * decoded)) (childrenData : list tree)
  (substitutions : list jsval) (R : renderers) (rendered : list jsval) :
  Forall2 (fun child r => render child substitutions R = Return r)
    childrenData rendered ->
  existsb isPromise rendered = true ->
  exists t how v,
    render (DNode nameData attributesData childrenData) substitutions R
    = Return (VPromise t how v).
Proof.
  intros Heach Hasync. rewrite render_node. cbv zeta.
  rewrite (renderChildren_rendered _ _ _ _ Heach).
  unfold combineRendered. rewrite Hasync. cbn [bind].
  destruct (promiseAll_isPromise rendered) as (t & how & v & ->).
  destruct (then_promise t how v (childrenOfSettled R substitutions))
    as (t1 & how1 & v1 & ->).
  cbn [isPromise].
  destruct (then_promise t1 how1 v1
              (fun children =>
                 topRenderer R nameData
                   (resolveAttributes attributesData substitutions) children))
    as (t2 & how2 & v2 & ->).
  eauto.
Qed.

Lemma render_promise_spreads_witness :
  exists t how v,
    render (DNode (NTag "p") []
              [DStr "a"; DNode (NComponent Async) [("delay", JustString "30")] []])
      [] textRenderers
    = Return (VPromise t how v).
Proof.
  apply (render_promise_spreads (NTag "p") []
           [DStr "a"; DNode (NComponent Async) [("delay", JustString "30")] []]
           [] textRenderers [VStr "a"; VPromise 30 Fulfilled (VStr "[]")]);
    [repeat constructor | reflexivity].
Defined.

Lemma firstRejection_spec (l : list jsval) :
  match firstRejection l with
  | Some (t, reason) =>
      In (VPromise t Rejected reason) l
      /\ forall t' reason', In (VPromise t' Rejected reason') l -> t <= t'
  | None => forall t' reason', ~ In (VPromise t' Rejected reason') l
  end.
Proof.
  induction l as [|v l IH]; [intros t' reason' []|].
  assert (Hskip : (forall t r, v <> VPromise t Rejected r) ->
                  firstRejection (v :: l) = firstRejection l ->
                  match firstRejection (v :: l) with
                  | Some (t, reason) =>
                      In (VPromise t Rejected reason) (v :: l)
                      /\ forall t' reason',
                           In (VPromise t' Rejected reason') (v :: l) -> t <= t'
                  | None => forall t' reason', ~ In (VPromise t' Rejected reason') (v :: l)
                  end).
  { intros Hv ->. destruct (firstRejection l) as [[t reason]|].
    - destruct IH as [Hmem Hmin]. split; [now right|].
      intros t' reason' [Heq|Hin]; [exfalso; eapply Hv; exact Heq | eauto].
    - intros t' reason' [Heq|Hin]; [eapply Hv; exact Heq | eapply IH; exact Hin]. }
  destruct v as [| | | | | | | |tv how payload];
    try (apply Hskip; [discriminate | reflexivity]).
  destruct how; [apply Hskip; [discriminate | reflexivity]|].
  clear Hskip. cbn [firstRejection].
  destruct (firstRejection l) as [[t reason]|].
  - destruct IH as [Hmem Hmin]. destruct (Nat.ltb t tv) eqn:Hlt.
    + apply Nat.ltb_lt in Hlt. split; [now right|].
      intros t' reason' [Heq|Hin]; [injection Heq as <- <-; lia | eauto].
    + apply Nat.ltb_ge in Hlt. split; [now left|].
      intros t' reason' [Heq|Hin]; [injection Heq as <- <-; lia|].
      specialize (Hmin t' reason' Hin). lia.
  - split; [now left|].
    intros t' reason' [Heq|Hin]; [injection Heq as <- <-; lia|].
    exfalso. eapply IH; exact Hin.
Qed.

Lemma firstRejection_earliest (l : list jsval) (t0 : nat) (reason0 : jsval) :
  In (VPromise t0 Rejected reason0) l ->
  exists t reason,
    firstRejection l = Some (t, reason)
    /\ In (VPromise t Rejected reason) l
    /\ forall t' reason', In (VPromise t' Rejected reason') l -> t <= t'.
Proof.
  intros Hin. pose proof (firstRejection_spec l) as Hspec.
  destruct (firstRejection l) as [[t reason]|].
  - exists t, reason. destruct Hspec. auto.
  - exfalso. eapply Hspec; exact Hin.
Qed.

(** X17. The first failure wins: when the promise of some child rejects,
    the rendering of the triple is a promise rejected at the time of the
    earliest rejection among the children and with the reason of a child
    that rejects at that time, which is that of the earliest rejection when
    there is only one.  Neither [renderers.children] nor the component or
    [renderers.element] of the triple is called. *)
Theorem render_rejection_wins (nameData : name)
  (attributesData : list (string * decoded)) (childrenData : list tree)
  (substitutions : list jsval) (R : renderers) (rendered : list jsval)
  (t0 : nat) (reason0 : jsval) :
  Forall2 (fun child r => render child substitutions R = Return r)
    childrenData rendered ->
  In (VPromise t0 Rejected reason0) rendered ->
  exists t reason,
    render (DNode nameData attributesData childrenData) substitutions R
    = Return (VPromise t Rejected reason)
    /\ In (VPromise t Rejected reason) rendered
    /\ forall t' reason', In (VPromise t' Rejected reason') rendered -> t <= t'.
Proof.
  intros Heach Hreject.
  destruct (firstRejection_earliest rendered t0 reason0 Hreject)
    as (t & reason & Hfirst & Hmem & Hmin).
  exists t, reason. split; [|split; assumption].
  assert (Hasync : existsb isPromise rendered = true).
  { apply existsb_exists. exists (VPromise t0 Rejected reason0). now split. }
  rewrite render_node. cbv zeta.
  rewrite (renderChildren_rendered _ _ _ _ Heach).
  unfold combineRendered, promiseAll. rewrite Hasync, Hfirst. reflexivity.
Qed.

Lemma render_rejection_wins_witness :
  let failing : component := fun _ => Return (VPromise 50 Rejected (VStr "boom")) in
  exists t reason,
    render (DNode (NComponent Bold) []
              [DNode (NComponent Async) [("delay", JustString "200")] [];
               DNode (NComponent failing) [] []])
      [] textRenderers
    = Return (VPromise t Rejected reason)
    /\ In (VPromise t Rejected reason)
         [VPromise 200 Fulfilled (VStr "[]"); VPromise 50 Rejected (VStr "boom")]
    /\ forall t' reason',
         In (VPromise t' Rejected reason')
           [VPromise 200 Fulfilled (VStr "[]"); VPromise 50 Rejected (VStr "boom")] ->
         t <= t'.
Proof.
  intros failing.
  apply (render_rejection_wins (NComponent Bold) []
           [DNode (NComponent Async) [("delay", JustString "200")] [];
            DNode (NComponent failing) [] []]
           [] textRenderers
           [VPromise 200 Fulfilled (VStr "[]"); VPromise 50 Rejected (VStr "boom")]
           50 (VStr "boom"));
    [repeat constructor | right; left; reflexivity].
Defined.

(** X18. An exception thrown while a child is rendered leaves [render]
    for the triple at once: the children after it are not rendered, and
    neither the combiner nor the component of the triple is called. *)
Theorem render_child_exception (nameData : name)
  (attributesData : list (string * decoded)) (before after : list tree)
  (bad : tree) (substitutions : list jsval) (R : renderers) (e : jsval) :
  Forall (fun child => exists r, render child substitutions R = Return r) before ->
  render bad substitutions R = Throw e ->
  render (DNode nameData attributesData (before ++ bad :: after)) substitutions R
  = Throw e.
Proof.
  intros Hbefore Hbad. rewrite render_node. cbv zeta. unfold renderChildren.
  rewrite mapM_app.
  assert (Hok : exists rs, mapM (fun child => render child substitutions R) before
                           = Return rs).
  { induction Hbefore as [|child before [r Hr] _ [rs IH]]; simpl.
    - eexists. reflexivity.
    - rewrite Hr, IH. eexists. reflexivity. }
  destruct Hok as [rs ->]. simpl. rewrite Hbad. reflexivity.
Qed.

Lemma render_child_exception_witness :
  let throwing : component := fun _ => Throw (VStr "no") in
  render (DNode (NTag "p") [] ([DStr "a"] ++ DNode (NComponent throwing) [] []
                                 :: [DStr "b"]))
    [] textRenderers
  = Throw (VStr "no").
Proof.
  intros throwing.
  apply (render_child_exception (NTag "p") [] [DStr "a"] [DStr "b"]
           (DNode (NComponent throwing) [] []) [] textRenderers (VStr "no"));
    [repeat constructor; eexists; reflexivity | reflexivity].
Defined.

(** X19. The built-in fragment is transparent: a triple whose component is
    [DocumentFragment] renders to what [renderChildren] gives for its
    children, be it a value or a promise that does not hold another
    promise. *)
Theorem render_fragment_transparent (attributesData : list (string * decoded))
  (childrenData : list tree) (substitutions : list jsval) (R : renderers)
  (v : jsval) :
  renderChildren childrenData substitutions R = Return v ->
  isPromise (settledValue v) = false ->
  render (DNode (NComponent DocumentFragment) attributesData childrenData)
    substitutions R
  = Return v.
Proof.
  intros Hchildren Hplain. rewrite render_node. cbv zeta. rewrite Hchildren.
  cbn [bind topRenderer].
  destruct v; try apply DocumentFragment_forwards.
  cbn [isPromise settledValue] in *. destruct how; cbn [then_]; [|reflexivity].
  rewrite DocumentFragment_forwards. destruct v; try reflexivity. discriminate Hplain.
Qed.

Lemma render_fragment_transparent_witness :
  render (DNode (NComponent DocumentFragment) []
            [DStr "a"; DNode (NComponent Async) [("delay", JustString "30")] []])
    [] textRenderers
  = Return (VPromise 30 Fulfilled (VStr "a[]")).
Proof.
  apply (render_fragment_transparent []
           [DStr "a"; DNode (NComponent Async) [("delay", JustString "30")] []]
           [] textRenderers (VPromise 30 Fulfilled (VStr "a[]")));
    reflexivity.
Defined.

Lemma Obj_get_set_other {A : Type} (o : list (string * A)) (key other : string)
  (v : A) :
  key <> other -> Obj.get (Obj.set o key v) other = Obj.get o other.
Proof.
  intros Hne. induction o as [|[k w] o IH]; simpl.
  - destruct (String.eqb_spec key other); [contradiction | reflexivity].
  - destruct (String.eqb_spec k key) as [->|Hk]; simpl.
    + destruct (String.eqb_spec key other); [contradiction | reflexivity].
    + destruct (String.eqb k other); [reflexivity | exact IH].
Qed.

Lemma Obj_assign_copy {A : Type} (o : list (string * A)) :
  List.NoDup (Obj.keys o) -> Obj.assign [] o = o.
Proof.
  intros Hnd. unfold Obj.assign.
  rewrite (fold_set_map (fun x : A => x) o []) by exact Hnd.
  simpl. rewrite <- (map_id o) at 2. apply map_ext. now intros [k v].
Qed.

(** X20. A component receives the resolved attributes and, under the name
    [children], the rendered children: the properties object is the
    attributes object with [children] set, so an attribute that is itself
    named [children] is replaced, and every other attribute is passed as it
    is. *)
Theorem renderComponent_props (c : component) (attributes : props)
  (children : jsval) :
  List.NoDup (Obj.keys attributes) ->
  let props := Obj.set attributes "children" children in
  renderComponent c attributes children = c props
  /\ Obj.get props "children" = Some children
  /\ forall name, name <> "children" -> Obj.get props name = Obj.get attributes name.
Proof.
  intros Hnd props. repeat split.
  - unfold renderComponent. rewrite (Obj_assign_copy attributes Hnd). reflexivity.
  - apply Obj_get_set.
  - intros name Hname. apply Obj_get_set_other. congruence.
Qed.

Lemma renderComponent_props_witness :
  renderComponent Bold [("children", VStr "attribute"); ("id", VStr "x")] (VStr "kids")
  = Return (VStr "<b>kids</b>").
Proof.
  rewrite (proj1 (renderComponent_props Bold
                    [("children", VStr "attribute"); ("id", VStr "x")] (VStr "kids")
                    ltac:(repeat constructor; simpl; intuition discriminate))).
  reflexivity.
Defined.

(** X21. A document type node and a processing instruction are rendered by
    the built-in components, unless the caller's class map replaces them:
    transformed and then rendered to text, a document type named [name]
    gives [<!doctype name>] and a processing instruction gives
    [<!target data>]. *)
Theorem render_document_type (global : gmap string name)
  (classMap : gmap string component) (name target data : string) (substitutions : list jsval) :
  classMap !! "DocumentType" = None ->
  classMap !! "ProcessingInstruction" = None ->
  (exists d,
     transformNode global (DocumentTypeNode name) (extendedClassMap classMap) = Return d
     /\ renderToText d substitutions = Return (VStr ("<!doctype " +:+ name +:+ ">")))
  /\ (exists d,
        transformNode global (ProcessingInstructionNode target data)
          (extendedClassMap classMap) = Return d
        /\ renderToText d substitutions
           = Return (VStr ("<!" +:+ target +:+ " " +:+ data +:+ ">"))).
Proof.
  intros Hdoctype Hinstruction. split; eexists; (split; [reflexivity|]).
  - unfold transformDocumentType, classMapEntry.
    rewrite extendedClassMap_lookup, Hdoctype. reflexivity.
  - unfold transformProcessingInstruction, classMapEntry.
    rewrite extendedClassMap_lookup, Hinstruction. reflexivity.
Qed.

Lemma render_document_type_witness :
  exists d,
    transformNode ∅ (DocumentTypeNode "html") (extendedClassMap ∅) = Return d
    /\ renderToText d [] = Return (VStr "<!doctype html>").
Proof.
  apply (proj1 (render_document_type ∅ ∅ "html" "xml" "version" []
                  (lookup_empty _) (lookup_empty _))).
Defined.

(* ------------------------------------------------------------------ *)
(** ** Trees without components *)

Lemma tree_induction (P : tree -> Prop) :
  (forall s, P (DStr s)) ->
  (forall n, P (DNum n)) ->
  (forall nameData attributesData childrenData,
      Forall P childrenData -> P (DNode nameData attributesData childrenData)) ->
  (forall items, P (DParts items)) ->
  forall d, P d.
Proof.
  intros HS HN HD HP. fix IH 1.
  intros [s|n|nameData attributesData childrenData|items];
    [apply HS|apply HN| |apply HP].
  apply HD. induction childrenData as [|child childrenData IHc]; constructor.
  - apply IH.
  - exact IHc.
Qed.

Lemma index_not_promise (substitutions : list jsval) (n : N) :
  Forall (fun v => isPromise v = false) substitutions ->
  isPromise (index substitutions n) = false.
Proof.
  intros H. unfold index.
  destruct (substitutions !! N.to_nat n) as [v|] eqn:E; [|reflexivity].
  rewrite Forall_forall in H. apply H.
  eapply list_elem_of_lookup_2. exact E.
Qed.

Lemma existsb_isPromise_false (l : list jsval) :
  Forall (fun v => isPromise v = false) l -> existsb isPromise l = false.
Proof. induction 1 as [|v l Hv _ IH]; simpl; [reflexivity | now rewrite Hv]. Qed.

(** X22. Text rendering of a tree without components is synchronous: when
    no substitution is a promise and every substitution prints as modelled
    (see [printable]: safe integers, no object with a [toString] property
    of its own, no error object), [renderToText] returns a value that is
    not a promise, and throws nothing. *)
Theorem renderToText_plain_synchronous (d : tree) (substitutions : list jsval) :
  plain d ->
  Forall (fun v => isPromise v = false) substitutions ->
  Forall (fun v => printable v = true) substitutions ->
  exists v, renderToText d substitutions = Return v /\ isPromise v = false.
Proof.
  intros Hplain Hsubs _. unfold renderToText.
  induction d as [s|n|nameData attributesData childrenData IH|items]
    using tree_induction.
  - eexists. split; reflexivity.
  - eexists. split; [reflexivity|]. now apply index_not_promise.
  - assert (Hkids : Forall plain childrenData) by (inversion Hplain; assumption).
    assert (Hmap : exists rendered,
      mapM (fun child => render child substitutions textRenderers) childrenData
      = Return rendered /\ Forall (fun v => isPromise v = false) rendered).
    { clear Hplain. induction IH as [|child childrenData Hchild _ IHk].
      - eexists. split; [reflexivity | constructor].
      - inversion Hkids as [|? ? Hc Hrest]; subst.
        destruct (Hchild Hc) as (v & Hv & Hnp).
        destruct (IHk Hrest) as (vs & Hvs & Hnps).
        exists (v :: vs). simpl. rewrite Hv, Hvs. split; [reflexivity|].
        now constructor. }
    destruct Hmap as (rendered & Hmap & Hnp).
    rewrite render_node. cbv zeta. unfold renderChildren. rewrite Hmap.
    cbn [bind]. unfold combineRendered.
    rewrite (existsb_isPromise_false rendered Hnp).
    inversion Hplain; subst; eexists; split; reflexivity.
  - inversion Hplain.
Qed.

Lemma renderToText_plain_synchronous_witness :
  exists v,
    renderToText (DNode (NTag "p") [("id", JustIndex 1)] [DStr "a"; DNum 0; DNum 9])
      [VStr "x"; VNum 3]
    = Return v /\ isPromise v = false.
Proof.
  apply renderToText_plain_synchronous; repeat constructor.
Defined.

(* ------------------------------------------------------------------ *)
(** ** Static markup *)









(* ------------------------------------------------------------------ *)
(** ** Values in text *)

(** X24. A substitution is printed differently as a child and as an
    attribute.  Among the children it goes through [join], where null and
    undefined give nothing; in an attribute it is interpolated, where they
    are spelled out.  For every value [v] that is not a promise and that
    prints as modelled (see [printable]: safe integers, no object with a
    [toString] property of its own, no error object), the element with the
    attribute and the only child both taken from [v] renders as below.  The
    name of the attribute is not [__proto__], which an attributes object
    never has. *)
Theorem renderToText_child_and_attribute (tag attribute : string) (v : jsval) :
  isPromise v = false ->
  printable v = true ->
  attribute <> "__proto__" ->
  renderToText (DNode (NTag tag) [(attribute, JustIndex 0)] [DNum 0]) [v]
  = Return (VStr ("<" +:+ tag +:+ " " +:+ attribute +:+ "=" +:+ Str.quote
                  +:+ toString v +:+ Str.quote +:+ ">" +:+ joinItem v
                  +:+ "</" +:+ tag +:+ ">")).
Proof.
  intros Hv _ _. unfold renderToText. rewrite render_node. cbv zeta.
  unfold renderChildren. cbn [mapM render value textRenderers].
  unfold renderValueToText. cbn [bind]. unfold combineRendered.
  change (index [v] 0) with v. cbn [existsb]. rewrite Hv.
  cbn [orb children textRenderers]. unfold renderChildrenToText.
  cbn [bind isPromise topRenderer element textRenderers].
  unfold renderElementToText, joinEmpty, printProp.
  cbn [resolveAttributes fold_left fst snd Obj.set resolveAttribute
       renderToTextItem Obj.keys Obj.get map Str.concat toString].
  change (index [v] 0) with v. rewrite String.eqb_refl.
  rewrite !append_nil_r. now rewrite !append_assoc.
Qed.

Lemma renderToText_child_and_attribute_witness :
  renderToText (DNode (NTag "p") [("title", JustIndex 0)] [DNum 0]) [VNull]
  = Return (VStr ("<p title=" +:+ Str.quote +:+ "null" +:+ Str.quote +:+ "></p>")).
Proof.
  apply (renderToText_child_and_attribute "p" "title" VNull);
    [reflexivity | reflexivity | discriminate].
Defined.



(** Nested asynchronous components: the outer one starts when the inner
    one has settled. *)
Example render_nested_async :
  renderToText
    (DNode (NComponent Async) [("delay", JustString "20")]
       [DNode (NComponent Async) [("delay", JustString "30")] [DStr "x"]])
    []
  = Return (VPromise 50 Fulfilled (VStr "[[x]]")).
Proof. reflexivity. Qed.
